(** * osmium::ProgressBar

    A shallow embedding of [include/osmium/util/progress_bar.hpp] and the
    properties of the progress bar that its specification states.

    The class keeps four [size_t] counters and two flags, and writes to
    [std::cerr].  The embedding keeps

    - [size_t] as [Z] with the wrap-around of an unsigned 64-bit integer
      written out ([SizeT]);
    - the one [double] computation of [display] as IEEE 754 binary64
      arithmetic ([Double], on the specification floats of the standard
      library);
    - the member functions as computations over the object and a trace of
      what happened on [std::cerr]; a computation returns, throws (when
      the stream is configured to throw on a failed write) or has no
      defined behaviour (integer division by zero, a [double] too large
      for [size_t], a pointer outside its string literal).  None of the
      latter is reachable from a constructed object
      ([lifetime_returns]). *)

From Stdlib Require Import ZArith Lia Bool List String Ascii.
From Stdlib Require Import Floats.SpecFloat DecimalString.
Import ListNotations.
Local Open Scope Z_scope.

(** ** [size_t] *)

Module SizeT.

Definition bits : Z := 64.

Definition modulus : Z := 2 ^ bits.

Definition wrap (z : Z) : Z := z mod modulus.

Definition add (a b : Z) : Z := wrap (a + b).

Definition mul (a b : Z) : Z := wrap (a * b).

End SizeT.

(** ** [double] *)

Module Double.

Definition prec : Z := 53.

Definition emax : Z := 1024.

(** Conversion of an unsigned integer to [double]: round to nearest,
    ties to even. *)
Definition of_size_t (n : Z) : spec_float :=
  binary_normalize prec emax n 0 false.

Definition mul : spec_float -> spec_float -> spec_float := SFmul prec emax.

Definition div : spec_float -> spec_float -> spec_float := SFdiv prec emax.

(** The literal [100.0]. *)
Definition hundred : spec_float := of_size_t 100.

(** The integral part of a finite non-negative [double]. *)
Definition integral_part (m : positive) (e : Z) : Z :=
  if 0 <=? e then Z.pos m * 2 ^ e else Z.pos m / 2 ^ (- e).

(** [size_t(x)]: the fractional part is discarded; the conversion is
    defined only when the truncated value fits the destination type. *)
Definition to_size_t (x : spec_float) : option Z :=
  match x with
  | S754_zero _ => Some 0
  | S754_finite false m e =>
      let v := integral_part m e in
      if v <? SizeT.modulus then Some v else None
  | S754_finite true m e =>
      if integral_part m e =? 0 then Some 0 else None
  | S754_infinity _ | S754_nan => None
  end.

End Double.

(** ** [std::cerr] and the outcome of a call *)

(** What happened on the stream, in order.  [Divide] is not output: it
    records that [display] evaluated its division, so that "the division
    is not evaluated" can be stated. *)
Inductive event : Type :=
| Put (s : string)
| PutFailed (s : string)
| Divide (n d : Z).

Definition trace : Type := list event.

(** The characters that reached the stream. *)
Fixpoint output (t : trace) : string :=
  match t with
  | [] => EmptyString
  | Put s :: t' => (s ++ output t')%string
  | _ :: t' => output t'
  end.

(** The number of divisions evaluated. *)
Fixpoint divisions (t : trace) : nat :=
  match t with
  | [] => O
  | Divide _ _ :: t' => S (divisions t')
  | _ :: t' => divisions t'
  end.

(** Whether an insertion throws, given the history: the stream's exception
    mask and the state of the terminal are not the progress bar's. *)
Definition stream : Type := trace -> string -> bool.

(** [std::cerr] as the library sets it up: no insertion throws. *)
Definition quiet : stream := fun _ _ => false.

Inductive undefined : Type :=
| DivisionByZero
| ConversionOutOfRange
| PointerOutOfBounds.

Inductive outcome (A : Type) : Type :=
| Returned (a : A)
| Thrown
| Undefined (u : undefined).

Arguments Returned {A} a.
Arguments Thrown {A}.
Arguments Undefined {A} u.

(** ** The class *)

Module ProgressBar.

Definition bar : string :=
  "======================================================================".

Definition spc : string :=
  "                                                                     ".

Definition length : Z := 70.

Record t : Type := mk {
  m_max_size : Z;
  m_done_size : Z;
  m_current_size : Z;
  m_prev_percent : Z;
  m_enable : bool;
  m_do_cleanup : bool
}.

Definition set_done_size (v : Z) (pb : t) : t :=
  mk (m_max_size pb) v (m_current_size pb) (m_prev_percent pb)
     (m_enable pb) (m_do_cleanup pb).

Definition set_current_size (v : Z) (pb : t) : t :=
  mk (m_max_size pb) (m_done_size pb) v (m_prev_percent pb)
     (m_enable pb) (m_do_cleanup pb).

Definition set_prev_percent (v : Z) (pb : t) : t :=
  mk (m_max_size pb) (m_done_size pb) (m_current_size pb) v
     (m_enable pb) (m_do_cleanup pb).

Definition set_do_cleanup (v : bool) (pb : t) : t :=
  mk (m_max_size pb) (m_done_size pb) (m_current_size pb) (m_prev_percent pb)
     (m_enable pb) v.

(** A member function: from the object and the history to an outcome, the
    object and the history.  The object keeps what was assigned before an
    exception left the function. *)
Definition M (A : Type) : Type := t -> trace -> outcome A * t * trace.

Definition ret {A : Type} (a : A) : M A :=
  fun pb tr => (Returned a, pb, tr).

Definition bind {A B : Type} (m : M A) (k : A -> M B) : M B :=
  fun pb tr =>
    match m pb tr with
    | (Returned a, pb', tr') => k a pb' tr'
    | (Thrown, pb', tr') => (Thrown, pb', tr')
    | (Undefined u, pb', tr') => (Undefined u, pb', tr')
    end.

Notation "x <- m ;; k" := (bind m (fun x => k))
  (at level 61, m at next level, right associativity).
Notation "m ;; k" := (bind m (fun _ => k))
  (at level 61, right associativity).

Definition get {A : Type} (field : t -> A) : M A :=
  fun pb tr => (Returned (field pb), pb, tr).

Definition assign (f : t -> t) : M unit :=
  fun pb tr => (Returned tt, f pb, tr).

Definition when (b : bool) (m : M unit) : M unit :=
  if b then m else ret tt.

(** [try { m } catch (...) { }]: an exception is swallowed; undefined
    behaviour is not an exception. *)
Definition try_catch_all {A : Type} (m : M A) : M unit :=
  fun pb tr =>
    match m pb tr with
    | (Returned _, pb', tr') => (Returned tt, pb', tr')
    | (Thrown, pb', tr') => (Returned tt, pb', tr')
    | (Undefined u, pb', tr') => (Undefined u, pb', tr')
    end.

(** [a / b] on [size_t]. *)
Definition divide (a b : Z) : M Z :=
  fun pb tr =>
    if b =? 0 then (Undefined DivisionByZero, pb, tr)
    else (Returned (a / b), pb, tr ++ [Divide a b]).

(** [size_t(x)] for a [double] [x]. *)
Definition size_t_of (x : spec_float) : M Z :=
  fun pb tr =>
    match Double.to_size_t x with
    | Some v => (Returned v, pb, tr)
    | None => (Undefined ConversionOutOfRange, pb, tr)
    end.

Fixpoint skip (n : nat) (s : string) : string :=
  match n, s with
  | O, _ => s
  | S n', String _ s' => skip n' s'
  | S _, EmptyString => EmptyString
  end.

Definition strlen (s : string) : Z := Z.of_nat (String.length s).

(** [s + k] for a string literal [s]: the characters of [s] from position
    [k] on; defined up to the terminating zero. *)
Definition plus (s : string) (k : Z) : M string :=
  fun pb tr =>
    if (0 <=? k) && (k <=? strlen s)
    then (Returned (skip (Z.to_nat k) s), pb, tr)
    else (Undefined PointerOutOfBounds, pb, tr).

(** The decimal numeral of a [size_t], as [operator<<] prints it. *)
Definition numeral (n : Z) : string :=
  NilZero.string_of_uint (N.to_uint (Z.to_N n)).

Section Stream.

Variable cerr_throws : stream.

(** [std::cerr << s]. *)
Definition cerr (s : string) : M unit :=
  fun pb tr =>
    if cerr_throws tr s then (Thrown, pb, tr ++ [PutFailed s])
    else (Returned tt, pb, tr ++ [Put s]).

Definition display : M unit :=
  max_size <- get m_max_size ;;
  done_size <- get m_done_size ;;
  current_size <- get m_current_size ;;
  percent <- divide (SizeT.mul 100 (SizeT.add done_size current_size)) max_size ;;
  prev_percent <- get m_prev_percent ;;
  if prev_percent =? percent then ret tt
  else
    assign (set_prev_percent percent) ;;
    num <- size_t_of (Double.mul (Double.of_size_t percent)
                        (Double.div (Double.of_size_t length) Double.hundred)) ;;
    cerr "[" ;;
    (if length <=? num then cerr bar
     else
       fill <- plus bar (length - num) ;;
       cerr fill ;;
       cerr ">" ;;
       rest <- plus spc num ;;
       cerr rest) ;;
    cerr "] " ;;
    when (percent <? 10) (cerr " ") ;;
    when (percent <? 100) (cerr " ") ;;
    cerr (numeral percent) ;;
    cerr ("% " ++ String "013" EmptyString).

Definition update (current_size : Z) : M unit :=
  enable <- get m_enable ;;
  if negb enable then ret tt
  else
    assign (set_current_size current_size) ;;
    display.

Definition file_done (file_size : Z) : M unit :=
  enable <- get m_enable ;;
  when enable
    (done_size <- get m_done_size ;;
     assign (set_done_size (SizeT.add done_size file_size)) ;;
     assign (set_current_size 0) ;;
     display).

Definition done : M unit :=
  assign (set_do_cleanup false) ;;
  enable <- get m_enable ;;
  when enable
    (max_size <- get m_max_size ;;
     assign (set_done_size max_size) ;;
     assign (set_current_size 0) ;;
     display ;;
     cerr (String "010" EmptyString)).

Definition remove : M unit :=
  enable <- get m_enable ;;
  when enable
    (cerr spc ;;
     cerr ("         " ++ String "013" EmptyString) ;;
     assign (set_prev_percent (100 + 1))).

(** [~ProgressBar()]. *)
Definition destroy : M unit :=
  do_cleanup <- get m_do_cleanup ;;
  when do_cleanup (try_catch_all done).

End Stream.

(** [ProgressBar(max_size, enable)]. *)
Definition construct (max_size : Z) (enable : bool) : t :=
  mk max_size 0 0 (100 + 1) ((0 <? max_size) && enable) true.

(** ** Callers *)

(** The public member functions a caller can invoke on a live object. *)
Inductive call : Type :=
| Update (current_size : Z)
| FileDone (file_size : Z)
| Done
| Remove.

Definition invoke (cerr_throws : stream) (c : call) : M unit :=
  match c with
  | Update current_size => update cerr_throws current_size
  | FileDone file_size => file_done cerr_throws file_size
  | Done => done cerr_throws
  | Remove => remove cerr_throws
  end.

(** A caller making the calls [cs] one after the other.  An exception that
    leaves a call is caught by the caller, who goes on: the object after a
    caller that lets the exception escape is the object after the calls up
    to that one.  Nothing goes on after undefined behaviour. *)
Fixpoint session (cerr_throws : stream) (cs : list call) : M unit :=
  match cs with
  | [] => ret tt
  | c :: cs' =>
      try_catch_all (invoke cerr_throws c) ;; session cerr_throws cs'
  end.

(** The whole life of an object: construction, the caller's calls, and the
    destructor at the end of the scope. *)
Definition lifetime (cerr_throws : stream) (max_size : Z) (enable : bool)
    (cs : list call) : outcome unit * t * trace :=
  (session cerr_throws cs ;; destroy cerr_throws)
    (construct max_size enable) [].

End ProgressBar.

Import ProgressBar.

(** ** Vocabulary of the properties *)

(** The dividend of the percentage. *)
Definition hundredfold (pb : ProgressBar.t) : Z :=
  SizeT.mul 100 (SizeT.add (m_done_size pb) (m_current_size pb)).

(** The percentage [display] computes from the counters. *)
Definition percent_of (pb : ProgressBar.t) : Z :=
  hundredfold pb / m_max_size pb.

(** The event of [display] evaluating the percentage. *)
Definition division (pb : ProgressBar.t) : event :=
  Divide (hundredfold pb) (m_max_size pb).

(** The number of filled cells [display] computes for a percentage. *)
Definition fill_count (percent : Z) : option Z :=
  Double.to_size_t
    (Double.mul (Double.of_size_t percent)
       (Double.div (Double.of_size_t length) Double.hundred)).

(** [n] copies of one glyph. *)
Fixpoint glyphs (c : ascii) (n : nat) : string :=
  match n with
  | O => EmptyString
  | S n' => String c (glyphs c n')
  end.

Definition fills (n : Z) : string := glyphs "=" (Z.to_nat n).

Definition blanks (n : Z) : string := glyphs " " (Z.to_nat n).

Definition carriage_return_char : ascii := "013"%char.

Definition carriage_return : string := String carriage_return_char EmptyString.

Definition newline : string := String "010" EmptyString.

(** The insertions between ['['] and ["] "] for a fill count. *)
Definition body (num : Z) : list string :=
  if length <=? num then [bar]
  else [skip (Z.to_nat (length - num)) bar; ">"%string;
        skip (Z.to_nat num) spc].

(** The insertions of one render, in order. *)
Definition frame (percent num : Z) : list string :=
  ["["%string] ++ body num ++ ["] "%string]
  ++ (if percent <? 10 then [" "%string] else [])
  ++ (if percent <? 100 then [" "%string] else [])
  ++ [numeral percent; ("% " ++ carriage_return)%string].

Definition text (chunks : list string) : string :=
  String.concat EmptyString chunks.

(** The spaces that right-justify the percentage in three columns. *)
Definition padding (percent : Z) : string :=
  ((if (percent <? 10)%Z then " " else "")
   ++ (if (percent <? 100)%Z then " " else ""))%string.

(** The cells [display] writes for a fill count. *)
Definition cells (num : Z) : string :=
  if num <? length then (fills num ++ ">" ++ blanks (length - 1 - num))%string
  else fills length.

(** The line a render at 100 percent writes. *)
Definition full_line : string :=
  ("[" ++ bar ++ "] 100% " ++ carriage_return)%string.

(** Inserting the chunks one after the other. *)
Fixpoint puts (cerr_throws : stream) (chunks : list string) : M unit :=
  match chunks with
  | [] => ret tt
  | c :: chunks' => cerr cerr_throws c ;; puts cerr_throws chunks'
  end.

(** The characters of [s] after the first [a]. *)
Fixpoint after (a : ascii) (s : string) : string :=
  match s with
  | EmptyString => EmptyString
  | String c s' => if Ascii.eqb c a then s' else after a s'
  end.

(** The characters of [s] before the first [b]. *)
Fixpoint before (b : ascii) (s : string) : string :=
  match s with
  | EmptyString => EmptyString
  | String c s' => if Ascii.eqb c b then EmptyString else String c (before b s')
  end.

(** The cells of a rendered line: what stands between ['['] and [']']. *)
Definition bar_body (line : string) : string := before "]" (after "[" line).

(** The percent field of a rendered line: between ["] "] and ['%']. *)
Definition percent_field (line : string) : string :=
  before "%" (after " " (after "]" line)).

Fixpoint count (c : ascii) (s : string) : nat :=
  match s with
  | EmptyString => O
  | String c' s' => (if Ascii.eqb c' c then 1 else 0) + count c s'
  end.

(** The cells the specification's render step describes for a fill count. *)
Definition claimed_body (num : Z) : string :=
  if num <? length then (fills num ++ ">" ++ blanks (length - num))%string
  else fills length.

(** A failed insertion among the events [evs]. *)
Fixpoint write_failed (evs : trace) : bool :=
  match evs with
  | [] => false
  | PutFailed _ :: _ => true
  | _ :: evs' => write_failed evs'
  end.

Fixpoint has_done (cs : list call) : bool :=
  match cs with
  | [] => false
  | Done :: _ => true
  | _ :: cs' => has_done cs'
  end.

(** A stream on which every insertion throws. *)
Definition broken : stream := fun _ _ => true.

(** The object [done] hands to [display]. *)
Definition finished (pb : ProgressBar.t) : ProgressBar.t :=
  set_current_size 0 (set_done_size (m_max_size pb) (set_do_cleanup false pb)).

(** How a call ends when its events are [evs] and nothing is undefined. *)
Definition ending (evs : trace) : outcome unit :=
  if write_failed evs then Thrown else Returned tt.

(** An enabled object has a positive total: what the constructor
    establishes and every member function keeps. *)
Definition consistent (pb : ProgressBar.t) : bool :=
  implb (m_enable pb) (0 <? m_max_size pb).

(** The object and the history a computation ends with. *)
Definition object {A : Type} (res : outcome A * ProgressBar.t * trace)
  : ProgressBar.t := snd (fst res).

Definition history {A : Type} (res : outcome A * ProgressBar.t * trace)
  : trace := snd res.

Definition result {A : Type} (res : outcome A * ProgressBar.t * trace)
  : outcome A := fst (fst res).

(** The integers from 0 up to [n], [n] excluded. *)
Definition below (n : nat) : list Z := map Z.of_nat (seq 0 n).

(** The fill count of a percentage up to 100, in integer arithmetic. *)
Definition tenths (percent : Z) : Z :=
  if percent =? 90 then 62 else 7 * percent / 10.

Definition line_feed_char : ascii := "010"%char.

(** The line feeds in a text. *)
Definition line_feeds (text : string) : nat := count line_feed_char text.

(** The calls of [done()] among the calls [cs]. *)
Fixpoint dones (cs : list call) : nat :=
  match cs with
  | [] => O
  | Done :: cs' => S (dones cs')
  | _ :: cs' => dones cs'
  end.

(** Case analysis on each insertion in turn: it throws or it does not. *)
Ltac walk_stream s :=
  repeat (cbv beta iota;
          match goal with
          | |- context [s ?h ?x] => destruct (s h x)
          end);
  cbv beta iota; reflexivity.

(** * Facts *)

(** ** Rounding of binary64 values

    [display] converts the percentage to [double], multiplies it by
    [70 / 100.0] and converts the product back to [size_t].  The lemmas of
    this section bound the product, so that the conversion back is shown
    to be defined for every [size_t] percentage. *)

Section Rounding.

Lemma digits2_pos_bounds (m : positive) :
  2 ^ (Z.pos (digits2_pos m) - 1) <= Z.pos m < 2 ^ Z.pos (digits2_pos m).
Proof.
  induction m as [m IH | m IH | ]; simpl digits2_pos.
  - rewrite Pos2Z.inj_succ, Z.pow_succ_r by lia.
    replace (Z.succ (Z.pos (digits2_pos m)) - 1) with (Z.succ (Z.pos (digits2_pos m) - 1)) by lia.
    rewrite Z.pow_succ_r by lia. lia.
  - rewrite Pos2Z.inj_succ, Z.pow_succ_r by lia.
    replace (Z.succ (Z.pos (digits2_pos m)) - 1) with (Z.succ (Z.pos (digits2_pos m) - 1)) by lia.
    rewrite Z.pow_succ_r by lia. lia.
  - simpl. lia.
Qed.

Lemma shr_1_m (x : shr_record) :
  0 <= shr_m x -> shr_m (shr_1 x) = shr_m x / 2.
Proof.
  destruct x as [m r s]; simpl.
  destruct m as [ | [p | p | ] | p ]; cbn [shr_m]; intros H;
    try reflexivity; try lia.
  - apply Z.div_unique with 1; lia.
  - apply Z.div_unique with 0; lia.
Qed.

Lemma iter_shr_1_m (n : positive) : forall x : shr_record,
  0 <= shr_m x -> shr_m (iter_pos shr_1 n x) = shr_m x / 2 ^ Z.pos n.
Proof.
  assert (Hdiv : forall a b c, 0 <= a -> 0 < b -> 0 < c -> a / b / c = a / (b * c)).
  { intros. rewrite Z.div_div by lia. reflexivity. }
  induction n as [n IH | n IH | ]; intros x Hx; simpl iter_pos.
  - assert (H1 : 0 <= shr_m (shr_1 x)) by (rewrite shr_1_m by assumption; apply Z.div_pos; lia).
    assert (H2 : 0 <= shr_m (iter_pos shr_1 n (shr_1 x))).
    { rewrite IH by assumption. apply Z.div_pos; [assumption | apply Z.pow_pos_nonneg; lia]. }
    rewrite IH, IH, shr_1_m by assumption.
    assert (Hp : 0 < 2 ^ Z.pos n) by (apply Z.pow_pos_nonneg; lia).
    rewrite !Z.div_div by lia.
    f_equal.
    replace (Z.pos n~1) with (1 + Z.pos n + Z.pos n) by lia.
    rewrite !Z.pow_add_r by lia. rewrite Z.pow_1_r. lia.
  - assert (H2 : 0 <= shr_m (iter_pos shr_1 n x)).
    { rewrite IH by assumption. apply Z.div_pos; [assumption | apply Z.pow_pos_nonneg; lia]. }
    rewrite IH, IH by assumption.
    assert (Hp : 0 < 2 ^ Z.pos n) by (apply Z.pow_pos_nonneg; lia).
    rewrite !Z.div_div by lia.
    f_equal.
    replace (Z.pos n~0) with (Z.pos n + Z.pos n) by lia.
    rewrite Z.pow_add_r by lia. reflexivity.
  - rewrite shr_1_m by assumption. reflexivity.
Qed.

Lemma round_nearest_even_bounds (m : Z) (l : location) :
  m <= round_nearest_even m l <= m + 1.
Proof.
  destruct l as [ | [ | | ] ]; simpl; try lia.
  destruct (Z.even m); lia.
Qed.

(** shr_fexp on a non-negative mantissa *)
Lemma shr_fexp_m prec emax (m e : Z) (l : location) :
  0 <= m ->
  let e' := Z.max e (fexp prec emax (Zdigits2 m + e)) in
  shr_m (fst (shr_fexp prec emax m e l)) = m / 2 ^ (e' - e) /\
  snd (shr_fexp prec emax m e l) = e'.
Proof.
  intros Hm e'. unfold shr_fexp, shr.
  assert (Hrec : shr_m (shr_record_of_loc m l) = m) by (destruct l as [ | [ | | ] ]; reflexivity).
  destruct (fexp prec emax (Zdigits2 m + e) - e) as [ | n | n ] eqn:En; simpl fst; simpl snd.
  - replace e' with e by (unfold e'; lia). rewrite Z.sub_diag, Z.div_1_r. auto.
  - replace e' with (e + Z.pos n) by (unfold e'; lia).
    rewrite iter_shr_1_m by (rewrite Hrec; assumption).
    rewrite Hrec. replace (e + Z.pos n - e) with (Z.pos n) by lia. auto.
  - replace e' with e by (unfold e'; lia). rewrite Z.sub_diag, Z.div_1_r. auto.
Qed.

Lemma shr_fexp_exact_loc prec emax (m e : Z) :
  fexp prec emax (Zdigits2 m + e) <= e ->
  fst (shr_fexp prec emax m e loc_Exact) = Build_shr_record m false false.
Proof.
  intros H. unfold shr_fexp, shr.
  destruct (fexp prec emax (Zdigits2 m + e) - e) as [ | n | n ] eqn:En; try reflexivity; lia.
Qed.

Lemma binary_round_aux_exact prec emax (s : bool) (m : positive) (e : Z) :
  let e1 := Z.max e (fexp prec emax (Z.pos (digits2_pos m) + e)) in
  let m1 := Z.pos m / 2 ^ (e1 - e) in
  exists mr, m1 <= mr <= m1 + 1 /\ (e1 = e -> mr = Z.pos m) /\
    let e2 := Z.max e1 (fexp prec emax (Zdigits2 mr + e1)) in
    binary_round_aux prec emax s (Z.pos m) e loc_Exact =
      match mr / 2 ^ (e2 - e1) with
      | Z0 => S754_zero s
      | Z.pos m2 => if e2 <=? emax - prec then S754_finite s m2 e2 else S754_infinity s
      | Z.neg _ => S754_nan
      end.
Proof.
  intros e1 m1. unfold binary_round_aux.
  destruct (shr_fexp_m prec emax (Z.pos m) e loc_Exact) as [Hm1 He1]; [lia | ].
  simpl Zdigits2 in Hm1, He1. fold e1 in Hm1, He1. fold m1 in Hm1.
  destruct (shr_fexp prec emax (Z.pos m) e loc_Exact) as [mrs' e'] eqn:E1.
  simpl in Hm1, He1. subst e'.
  set (mr := round_nearest_even (shr_m mrs') (loc_of_shr_record mrs')).
  exists mr.
  assert (Hmr : m1 <= mr <= m1 + 1).
  { unfold mr. rewrite <- Hm1. apply round_nearest_even_bounds. }
  split; [exact Hmr | ]. split.
  { intros Heq. assert (Hx : mrs' = Build_shr_record (Z.pos m) false false).
    { change mrs' with (fst (mrs', e1)). rewrite <- E1. apply shr_fexp_exact_loc.
      simpl Zdigits2. unfold e1 in Heq. lia. }
    unfold mr. rewrite Hx. reflexivity. }
  assert (Hm1nn : 0 <= m1) by (apply Z.div_pos; [lia | apply Z.pow_pos_nonneg; unfold e1; lia]).
  destruct (shr_fexp_m prec emax mr e1 loc_Exact) as [Hm2 He2]; [lia | ].
  destruct (shr_fexp prec emax mr e1 loc_Exact) as [mrs'' e''] eqn:E2.
  simpl in Hm2, He2. cbv zeta. rewrite Hm2, He2. reflexivity.
Qed.

Lemma fexp_le (d b : Z) : -1074 <= b - 53 -> d <= b -> fexp 53 1024 d <= b - 53.
Proof. unfold fexp, emin. lia. Qed.

Lemma digits_of_bound (m : positive) (e K k : Z) :
  0 <= e + K -> Z.pos m * 2 ^ (e + K) < 2 ^ (k + K) ->
  Z.pos (digits2_pos m) + e <= k.
Proof.
  intros HK H.
  pose proof (digits2_pos_bounds m) as [Hd _].
  assert (Hp : 0 < 2 ^ (e + K)) by (apply Z.pow_pos_nonneg; lia).
  assert (H1 : 2 ^ (Z.pos (digits2_pos m) - 1 + (e + K)) < 2 ^ (k + K)).
  { rewrite Z.pow_add_r by lia.
    apply Z.le_lt_trans with (Z.pos m * 2 ^ (e + K)); [ | exact H].
    apply Z.mul_le_mono_nonneg_r; [lia | exact Hd]. }
  assert (Hk : 0 <= k + K).
  { destruct (Z.le_gt_cases 0 (k + K)) as [Hle | Hgt]; [exact Hle | ].
    rewrite (Z.pow_neg_r 2 (k + K)) in H by lia. nia. }
  apply Z.pow_lt_mono_r_iff in H1; lia.
Qed.

Lemma floor_scaled (m n e K : Z) :
  0 <= m -> 0 <= n -> 0 <= e + K ->
  m / 2 ^ n * 2 ^ (e + n + K) <= m * 2 ^ (e + K).
Proof.
  intros Hm Hn HK.
  replace (e + n + K) with (n + (e + K)) by lia.
  rewrite Z.pow_add_r by lia.
  assert (Hp : 0 < 2 ^ n) by (apply Z.pow_pos_nonneg; lia).
  assert (Hq : 0 < 2 ^ (e + K)) by (apply Z.pow_pos_nonneg; lia).
  pose proof (Z.mul_div_le m (2 ^ n) Hp). nia.
Qed.

(** Rounding a positive value below [2^k] moves it up by at most one unit
    in the last place of that binade. *)
Lemma binary_round_aux_bound (K k : Z) (s : bool) (m : positive) (e : Z) :
  0 <= e + K -> e <= k - 53 -> -1074 <= k - 53 <= 971 ->
  Z.pos m * 2 ^ (e + K) + 2 ^ (k - 53 + K) < 2 ^ (k + K) ->
  binary_round_aux 53 1024 s (Z.pos m) e loc_Exact = S754_zero s \/
  exists m2 e2,
    binary_round_aux 53 1024 s (Z.pos m) e loc_Exact = S754_finite s m2 e2 /\
    e <= e2 <= k - 53 /\
    Z.pos m2 * 2 ^ (e2 + K) <= Z.pos m * 2 ^ (e + K) + 2 ^ (k - 53 + K).
Proof.
  intros HK He Hk Hv.
  destruct (binary_round_aux_exact 53 1024 s m e) as (mr & Hmr & _ & Heq).
  cbv zeta in Hmr, Heq.
  set (e1 := Z.max e (fexp 53 1024 (Z.pos (digits2_pos m) + e))) in *.
  set (e2 := Z.max e1 (fexp 53 1024 (Zdigits2 mr + e1))) in *.
  assert (Hu : 0 < 2 ^ (k - 53 + K)) by (apply Z.pow_pos_nonneg; lia).
  assert (Hd : Z.pos (digits2_pos m) + e <= k).
  { apply digits_of_bound with K; lia. }
  assert (He1 : e <= e1 <= k - 53).
  { unfold e1. pose proof (fexp_le (Z.pos (digits2_pos m) + e) k). lia. }
  assert (Hm1 : 0 <= Z.pos m / 2 ^ (e1 - e)).
  { apply Z.div_pos; [lia | apply Z.pow_pos_nonneg; lia]. }
  assert (Hfl : Z.pos m / 2 ^ (e1 - e) * 2 ^ (e1 + K) <= Z.pos m * 2 ^ (e + K)).
  { pose proof (floor_scaled (Z.pos m) (e1 - e) e K) as Hf.
    replace (e + (e1 - e) + K) with (e1 + K) in Hf by lia. apply Hf; lia. }
  assert (Hp1 : 0 < 2 ^ (e1 + K)) by (apply Z.pow_pos_nonneg; lia).
  assert (Hle1 : 2 ^ (e1 + K) <= 2 ^ (k - 53 + K)).
  { apply Z.pow_le_mono_r; lia. }
  assert (Hvr : mr * 2 ^ (e1 + K) <= Z.pos m * 2 ^ (e + K) + 2 ^ (k - 53 + K)) by nia.
  assert (He2 : e1 <= e2 <= k - 53).
  { unfold e2. destruct mr as [ | r | r ]; simpl Zdigits2.
    - unfold fexp, emin. lia.
    - assert (Z.pos (digits2_pos r) + e1 <= k) by (apply digits_of_bound with K; lia).
      pose proof (fexp_le (Z.pos (digits2_pos r) + e1) k). lia.
    - lia. }
  assert (Hfl2 : mr / 2 ^ (e2 - e1) * 2 ^ (e2 + K) <= mr * 2 ^ (e1 + K)).
  { pose proof (floor_scaled mr (e2 - e1) e1 K) as Hf.
    replace (e1 + (e2 - e1) + K) with (e2 + K) in Hf by lia. apply Hf; lia. }
  destruct (mr / 2 ^ (e2 - e1)) as [ | m2 | m2 ] eqn:Em2.
  - left. exact Heq.
  - right. exists m2, e2. split; [ | split; [lia | lia] ].
    rewrite Heq. replace (e2 <=? 1024 - 53) with true; [reflexivity | ].
    symmetry. apply Z.leb_le. lia.
  - exfalso. assert (0 <= mr / 2 ^ (e2 - e1)).
    { apply Z.div_pos; [lia | apply Z.pow_pos_nonneg; lia]. }
    lia.
Qed.

End Rounding.

Section FillCount.

Lemma iter_xO_value (d q : positive) :
  Z.pos (Pos.iter xO q d) = Z.pos q * 2 ^ Z.pos d.
Proof.
  induction d as [ | d IH ] using Pos.peano_ind.
  - simpl. lia.
  - rewrite Pos.iter_succ, Pos2Z.inj_xO, IH, Pos2Z.inj_succ, Z.pow_succ_r by lia.
    lia.
Qed.

Lemma shl_align_value (mx : positive) (ex ex' : Z) :
  let '(mz, ez) := shl_align mx ex ex' in
  ez = Z.min ex ex' /\ Z.pos mz = Z.pos mx * 2 ^ (ex - ez).
Proof.
  unfold shl_align. destruct (ex' - ex) as [ | d | d ] eqn:Ed.
  - split; [lia | ]. rewrite Z.sub_diag. simpl. lia.
  - split; [lia | ]. rewrite Z.sub_diag. simpl. lia.
  - split; [lia | ]. rewrite iter_xO_value.
    replace (ex - ex') with (Z.pos d) by lia. reflexivity.
Qed.

Lemma seventy_hundredths :
  Double.div (Double.of_size_t length) Double.hundred
  = S754_finite false 6305039478318694 (-53).
Proof. vm_compute. reflexivity. Qed.

Lemma of_size_t_bound (q : positive) :
  Z.pos q < SizeT.modulus ->
  Double.of_size_t (Z.pos q) = S754_zero false \/
  exists m e,
    Double.of_size_t (Z.pos q) = S754_finite false m e /\
    -52 <= e <= 12 /\
    Z.pos m * 2 ^ (e + 52) <= Z.pos q * 2 ^ 52 + 2 ^ 64.
Proof.
  intros Hq. unfold Double.of_size_t, binary_normalize, binary_round,
    Double.prec, Double.emax.
  pose proof (shl_align_value q 0 (fexp 53 1024 (Z.pos (digits2_pos q) + 0))) as Hs.
  destruct (shl_align q 0 (fexp 53 1024 (Z.pos (digits2_pos q) + 0)))
    as [mz ez].
  destruct Hs as [Hez Hmz].
  assert (Hlo : -52 <= ez <= 0).
  { unfold fexp, emin in Hez. pose proof (Pos2Z.is_pos (digits2_pos q)). lia. }
  assert (Hval : Z.pos mz * 2 ^ (ez + 52) = Z.pos q * 2 ^ 52).
  { rewrite Hmz. replace 52 with ((0 - ez) + (ez + 52)) at 2 by lia.
    rewrite (Z.pow_add_r 2 (0 - ez) (ez + 52)) by lia. ring. }
  destruct (binary_round_aux_bound 52 65 false mz ez) as [Hz | (m & e & He & Hr & Hv)].
  - lia.
  - lia.
  - lia.
  - rewrite Hval. change (65 - 53 + 52) with 64. change (65 + 52) with 117.
    unfold SizeT.modulus, SizeT.bits in Hq.
    change (2 ^ 117) with (2 ^ 64 * 2 ^ 52 + 2 ^ 64 * 2 ^ 52).
    assert (0 < 2 ^ 52) by reflexivity.
    assert (2 ^ 64 < 2 ^ 64 * 2 ^ 52) by reflexivity.
    nia.
  - left. exact Hz.
  - right. exists m, e. split; [exact He | ]. split; [lia | ].
    rewrite Hval in Hv. exact Hv.
Qed.

Lemma integral_part_bound (m : positive) (e K : Z) :
  0 <= K -> 0 <= e + K -> Z.pos m * 2 ^ (e + K) < 2 ^ (64 + K) ->
  0 <= Double.integral_part m e < SizeT.modulus.
Proof.
  intros HK0 HK Hv. unfold Double.integral_part, SizeT.modulus, SizeT.bits.
  assert (HpK : 0 < 2 ^ K) by (apply Z.pow_pos_nonneg; lia).
  assert (Ht : 2 ^ (64 + K) = 2 ^ 64 * 2 ^ K) by (apply Z.pow_add_r; lia).
  destruct (Z.leb_spec 0 e) as [He | He].
  - assert (Hp : 0 < 2 ^ e) by (apply Z.pow_pos_nonneg; lia).
    split; [nia | ].
    rewrite (Z.pow_add_r 2 e K) in Hv by lia. nia.
  - assert (Hp : 0 < 2 ^ (- e)) by (apply Z.pow_pos_nonneg; lia).
    split; [apply Z.div_pos; lia | ].
    apply Z.div_lt_upper_bound; [exact Hp | ].
    assert (Hq : 0 < 2 ^ (e + K)) by (apply Z.pow_pos_nonneg; lia).
    assert (Hs : 2 ^ (- e) * 2 ^ (e + K) = 2 ^ K).
    { rewrite <- Z.pow_add_r by lia. f_equal. lia. }
    nia.
Qed.

(** The conversion of the product back to [size_t] is defined for every
    percentage a [size_t] can hold. *)
Lemma fill_count_defined (percent : Z) :
  0 <= percent < SizeT.modulus ->
  exists num, fill_count percent = Some num /\ 0 <= num < SizeT.modulus.
Proof.
  intros [Hnn Hlt]. unfold fill_count. rewrite seventy_hundredths.
  destruct percent as [ | q | q ]; [ | | lia ].
  - exists 0. split; [reflexivity | ]. unfold SizeT.modulus, SizeT.bits. lia.
  - destruct (of_size_t_bound q Hlt) as [Hz | (m & e & Hx & He & Hv)].
    + rewrite Hz. exists 0. split; [reflexivity | ].
      unfold SizeT.modulus, SizeT.bits. lia.
    + rewrite Hx. unfold Double.mul, SFmul, Double.prec, Double.emax.
      change (xorb false false) with false.
      assert (Hscaled :
        Z.pos (m * 6305039478318694) * 2 ^ (e + -53 + 105)
        = 6305039478318694 * (Z.pos m * 2 ^ (e + 52))).
      { replace (e + -53 + 105) with (e + 52) by lia.
        rewrite Pos2Z.inj_mul. ring. }
      set (V := Z.pos m * 2 ^ (e + 52)) in *.
      assert (HV : 6305039478318694 * V + 2 ^ (64 - 53 + 105) < 2 ^ (64 + 105)).
      { unfold SizeT.modulus, SizeT.bits in Hlt. clearbody V.
        change (2 ^ (64 - 53 + 105)) with (2 ^ 116).
        change (2 ^ (64 + 105)) with (2 ^ 169). lia. }
      destruct (binary_round_aux_bound 105 64 false (m * 6305039478318694)
                  (e + -53)) as [Hz | (m2 & e2 & Hy & He2 & Hv2)].
      * lia.
      * lia.
      * lia.
      * rewrite Hscaled. exact HV.
      * rewrite Hz. exists 0. split; [reflexivity | ].
        unfold SizeT.modulus, SizeT.bits. lia.
      * rewrite Hy. rewrite Hscaled in Hv2.
        assert (Hb : 0 <= Double.integral_part m2 e2 < SizeT.modulus).
        { apply integral_part_bound with 105; [lia | lia | ].
          apply Z.le_lt_trans with (1 := Hv2).
          clearbody V. lia. }
        exists (Double.integral_part m2 e2). split; [ | exact Hb].
        unfold Double.to_size_t.
        destruct (Z.ltb_spec (Double.integral_part m2 e2) SizeT.modulus);
          [reflexivity | lia].
Qed.

End FillCount.

(** ** The stream *)

Section Strings.

Lemma append_assoc (a b c : string) :
  ((a ++ b) ++ c = a ++ (b ++ c))%string.
Proof. induction a as [ | x a IH ]; simpl; [reflexivity | now rewrite IH]. Qed.

Lemma append_nil_r (a : string) : (a ++ EmptyString)%string = a.
Proof. induction a as [ | x a IH ]; simpl; [reflexivity | now rewrite IH]. Qed.

Lemma length_append (a b : string) :
  String.length (a ++ b) = (String.length a + String.length b)%nat.
Proof. induction a as [ | x a IH ]; simpl; [reflexivity | now rewrite IH]. Qed.

End Strings.

Section Traces.

Lemma output_app (tr tr' : trace) :
  output (tr ++ tr') = (output tr ++ output tr')%string.
Proof.
  induction tr as [ | ev tr IH ]; simpl; [reflexivity | ].
  destruct ev; rewrite IH; [ | reflexivity | reflexivity ].
  symmetry. apply append_assoc.
Qed.

Lemma text_cons (c : string) (chunks : list string) :
  text (c :: chunks) = (c ++ text chunks)%string.
Proof.
  unfold text. destruct chunks as [ | c' chunks ]; simpl.
  - now rewrite append_nil_r.
  - reflexivity.
Qed.

Lemma output_puts (chunks : list string) :
  output (map Put chunks) = text chunks.
Proof.
  induction chunks as [ | c chunks IH ]; [reflexivity | ].
  rewrite text_cons. simpl. now rewrite IH.
Qed.

Lemma write_failed_app (evs evs' : trace) :
  write_failed (evs ++ evs') = write_failed evs || write_failed evs'.
Proof.
  induction evs as [ | ev evs IH ]; simpl; [reflexivity | ].
  destruct ev; auto.
Qed.

Lemma write_failed_puts (chunks : list string) :
  write_failed (map Put chunks) = false.
Proof. induction chunks; simpl; auto. Qed.

Lemma divisions_app (tr tr' : trace) :
  divisions (tr ++ tr') = (divisions tr + divisions tr')%nat.
Proof.
  induction tr as [ | ev tr IH ]; simpl; [reflexivity | ].
  destruct ev; simpl; rewrite IH; reflexivity.
Qed.

(** On a stream that does not throw, the chunks all arrive. *)
Lemma puts_quiet (chunks : list string) (pb : ProgressBar.t) (tr : trace) :
  puts quiet chunks pb tr = (Returned tt, pb, tr ++ map Put chunks).
Proof.
  revert tr. induction chunks as [ | c chunks IH ]; intros tr; simpl.
  - unfold ret. now rewrite app_nil_r.
  - unfold bind, cerr, quiet. rewrite IH, <- app_assoc. reflexivity.
Qed.

(** On any stream, the insertions stop at the first one that throws, and
    the object is not touched. *)
Lemma puts_events (s : stream) (chunks : list string) (pb : ProgressBar.t)
    (tr : trace) :
  exists evs,
    puts s chunks pb tr
    = (if write_failed evs then Thrown else Returned tt, pb, tr ++ evs)
    /\ divisions evs = O.
Proof.
  revert tr. induction chunks as [ | c chunks IH ]; intros tr; simpl.
  - exists []. rewrite app_nil_r. split; reflexivity.
  - unfold bind, cerr. destruct (s tr c).
    + exists [PutFailed c]. split; reflexivity.
    + destruct (IH (tr ++ [Put c])) as (evs & Heq & Hdiv).
      exists (Put c :: evs). rewrite Heq, <- app_assoc. split; [reflexivity | exact Hdiv].
Qed.

End Traces.

(** ** The render step *)

Section Display.

Variable s : stream.

Lemma integral_part_nonneg (m : positive) (e : Z) :
  0 <= Double.integral_part m e.
Proof.
  unfold Double.integral_part. destruct (Z.leb_spec 0 e).
  - apply Z.mul_nonneg_nonneg; [lia | apply Z.pow_nonneg; lia].
  - apply Z.div_pos; [lia | apply Z.pow_pos_nonneg; lia].
Qed.

Lemma fill_count_nonneg (percent num : Z) :
  fill_count percent = Some num -> 0 <= num.
Proof.
  unfold fill_count, Double.to_size_t.
  destruct (Double.mul _ _) as [ sg | sg | | [ | ] m e ]; try discriminate.
  - intros [= <-]. lia.
  - destruct (_ =? 0); [intros [= <-]; lia | discriminate].
  - destruct (_ <? _); [intros [= <-]; apply integral_part_nonneg | discriminate].
Qed.

(** What [display] does, when the division is defined. *)
Lemma display_eq (pb : ProgressBar.t) (tr : trace) :
  m_max_size pb <> 0 ->
  display s pb tr =
    if m_prev_percent pb =? percent_of pb
    then (Returned tt, pb, tr ++ [division pb])
    else
      match fill_count (percent_of pb) with
      | Some num =>
          puts s (frame (percent_of pb) num)
            (set_prev_percent (percent_of pb) pb) (tr ++ [division pb])
      | None =>
          (Undefined ConversionOutOfRange,
           set_prev_percent (percent_of pb) pb, tr ++ [division pb])
      end.
Proof.
  intros Hmax. apply Z.eqb_neq in Hmax.
  unfold display, bind, get, divide. rewrite Hmax.
  fold (hundredfold pb). fold (percent_of pb). fold (division pb).
  destruct (m_prev_percent pb =? percent_of pb); [reflexivity | ].
  unfold assign, size_t_of. fold (fill_count (percent_of pb)).
  destruct (fill_count (percent_of pb)) as [num | ] eqn:Enum; [ | reflexivity].
  pose proof (fill_count_nonneg _ _ Enum) as Hnum.
  unfold frame, body, when.
  change (String "013" EmptyString) with carriage_return.
  destruct (Z.leb_spec length num) as [Hfull | Hpart].
  - destruct (percent_of pb <? 10); destruct (percent_of pb <? 100);
      cbn [puts app]; unfold bind, cerr, ret; walk_stream s.
  - unfold plus.
    change (strlen bar) with 70. change (strlen spc) with 69.
    replace ((0 <=? length - num) && (length - num <=? 70)) with true
      by (symmetry; apply andb_true_iff; split; apply Z.leb_le;
          unfold length in *; lia).
    replace ((0 <=? num) && (num <=? 69)) with true
      by (symmetry; apply andb_true_iff; split; apply Z.leb_le;
          unfold length in *; lia).
    destruct (percent_of pb <? 10); destruct (percent_of pb <? 100);
      cbn [puts app]; unfold bind, cerr, ret; walk_stream s.
Qed.

End Display.

(** ** The member functions *)

Section Members.

Variable s : stream.

Lemma set_prev_percent_same (pb : ProgressBar.t) :
  set_prev_percent (m_prev_percent pb) pb = pb.
Proof. destruct pb; reflexivity. Qed.

Lemma hundredfold_in_range (pb : ProgressBar.t) :
  0 <= hundredfold pb < SizeT.modulus.
Proof.
  unfold hundredfold, SizeT.mul, SizeT.wrap. apply Z.mod_pos_bound. reflexivity.
Qed.

Lemma percent_in_range (pb : ProgressBar.t) :
  0 < m_max_size pb -> 0 <= percent_of pb < SizeT.modulus.
Proof.
  intros Hmax. pose proof (hundredfold_in_range pb) as [Hlo Hhi].
  unfold percent_of. split.
  - apply Z.div_pos; lia.
  - apply Z.le_lt_trans with (hundredfold pb); [ | exact Hhi].
    apply Z.div_le_upper_bound; [exact Hmax | nia].
Qed.

(** [display] on an object with a positive total: one division, then the
    insertions of a render or nothing; only [m_prev_percent] is assigned. *)
Lemma display_events (pb : ProgressBar.t) (tr : trace) :
  0 < m_max_size pb ->
  exists evs,
    display s pb tr
    = (ending evs,
       set_prev_percent (percent_of pb) pb, tr ++ division pb :: evs)
    /\ divisions evs = O
    /\ (m_prev_percent pb = percent_of pb -> evs = []).
Proof.
  intros Hmax. rewrite display_eq by lia.
  destruct (Z.eqb_spec (m_prev_percent pb) (percent_of pb)) as [Heq | Hne].
  - exists []. rewrite <- Heq, set_prev_percent_same. repeat split.
  - destruct (fill_count_defined (percent_of pb) (percent_in_range pb Hmax))
      as (num & Hnum & _).
    rewrite Hnum.
    destruct (puts_events s (frame (percent_of pb) num)
                (set_prev_percent (percent_of pb) pb) (tr ++ [division pb]))
      as (evs & Heq & Hdiv).
    exists evs. rewrite Heq, <- app_assoc. repeat split; [exact Hdiv | ].
    intros Heq'. contradiction.
Qed.

(** Whatever happens in [display], it assigns to [m_prev_percent] only. *)
Lemma display_object (pb : ProgressBar.t) (tr : trace) :
  exists p, object (display s pb tr) = set_prev_percent p pb.
Proof.
  destruct (Z.eq_dec (m_max_size pb) 0) as [Hz | Hnz].
  - exists (m_prev_percent pb). rewrite set_prev_percent_same.
    unfold display, bind, get, divide. rewrite Hz. reflexivity.
  - rewrite display_eq by exact Hnz.
    destruct (m_prev_percent pb =? percent_of pb).
    + exists (m_prev_percent pb). now rewrite set_prev_percent_same.
    + exists (percent_of pb). destruct (fill_count (percent_of pb)) as [num | ].
      * destruct (puts_events s (frame (percent_of pb) num)
                    (set_prev_percent (percent_of pb) pb) (tr ++ [division pb]))
          as (evs & Heq & _).
        now rewrite Heq.
      * reflexivity.
Qed.

Lemma consistent_enabled (pb : ProgressBar.t) :
  consistent pb = true -> m_enable pb = true -> 0 < m_max_size pb.
Proof.
  unfold consistent. intros Hc He. rewrite He in Hc. simpl in Hc.
  now apply Z.ltb_lt.
Qed.

Lemma consistent_construct (max_size : Z) (enable : bool) :
  consistent (construct max_size enable) = true.
Proof.
  unfold consistent, construct. simpl.
  destruct (0 <? max_size); destruct enable; reflexivity.
Qed.

(** One call on a consistent object: it returns or throws, and it throws
    exactly when an insertion failed; the total and the enabled flag stay;
    a disabled object leaves no event; the cleanup flag is cleared by
    [done] and kept by the others. *)
Lemma invoke_events (c : call) (pb : ProgressBar.t) (tr : trace) :
  consistent pb = true ->
  exists evs,
    result (invoke s c pb tr) = ending evs
    /\ history (invoke s c pb tr) = tr ++ evs
    /\ m_max_size (object (invoke s c pb tr)) = m_max_size pb
    /\ m_enable (object (invoke s c pb tr)) = m_enable pb
    /\ (m_enable pb = false -> evs = [])
    /\ m_do_cleanup (object (invoke s c pb tr))
       = match c with Done => false | _ => m_do_cleanup pb end.
Proof.
  intros Hc. pose proof (consistent_enabled pb Hc) as Hpos.
  destruct c as [x | x | | ]; unfold invoke.
  - unfold update, bind, get, assign.
    destruct (m_enable pb) eqn:En; cbv beta iota delta [negb].
    + destruct (display_events (set_current_size x pb) tr (Hpos eq_refl))
        as (evs & Heq & _).
      rewrite Heq. exists (division (set_current_size x pb) :: evs).
      unfold result, history, object; simpl. repeat split; auto. discriminate.
    + exists []. unfold ret, result, history, object; simpl.
      rewrite app_nil_r. repeat split; auto.
  - unfold file_done, bind, get, assign, when. destruct (m_enable pb) eqn:En.
    + set (pb1 := set_current_size 0
                    (set_done_size (SizeT.add (m_done_size pb) x) pb)).
      destruct (display_events pb1 tr (Hpos eq_refl)) as (evs & Heq & _).
      cbv beta iota. fold pb1. rewrite Heq. exists (division pb1 :: evs).
      unfold result, history, object; simpl. repeat split; auto. discriminate.
    + exists []. unfold ret, result, history, object; simpl.
      rewrite app_nil_r. repeat split; auto.
  - unfold done, bind, get, assign, when. cbv beta iota.
    change (m_enable (set_do_cleanup false pb)) with (m_enable pb).
    destruct (m_enable pb) eqn:En.
    + set (pb1 := set_current_size 0
                    (set_done_size (m_max_size (set_do_cleanup false pb))
                       (set_do_cleanup false pb))).
      destruct (display_events pb1 tr (Hpos eq_refl)) as (evs & Heq & _).
      cbv beta iota. fold pb1. rewrite Heq. unfold ending.
      destruct (write_failed evs) eqn:Ew.
      * exists (division pb1 :: evs).
        unfold result, history, object, ending; simpl. rewrite Ew.
        repeat split; auto. discriminate.
      * unfold cerr.
        destruct (s (tr ++ division pb1 :: evs) (String "010" EmptyString)).
        -- exists (division pb1 :: evs ++ [PutFailed (String "010" EmptyString)]).
           unfold result, history, object, ending; simpl.
           rewrite write_failed_app, Ew, <- app_assoc. simpl.
           repeat split; auto. discriminate.
        -- exists (division pb1 :: evs ++ [Put (String "010" EmptyString)]).
           unfold result, history, object, ending; simpl.
           rewrite write_failed_app, Ew, <- app_assoc. simpl.
           repeat split; auto. discriminate.
    + exists []. unfold ret, result, history, object; simpl.
      rewrite app_nil_r. repeat split; auto.
  - unfold remove, bind, get, assign, when. destruct (m_enable pb) eqn:En.
    + unfold cerr. destruct (s tr spc).
      * exists [PutFailed spc]. unfold result, history, object; simpl.
        repeat split; auto. discriminate.
      * destruct (s (tr ++ [Put spc]) _).
        -- eexists [Put spc; PutFailed _].
           unfold result, history, object; simpl. rewrite <- app_assoc.
           repeat split; auto. discriminate.
        -- eexists [Put spc; Put _].
           unfold result, history, object; simpl. rewrite <- app_assoc.
           repeat split; auto. discriminate.
    + exists []. unfold ret, result, history, object; simpl.
      rewrite app_nil_r. repeat split; auto.
Qed.

Lemma consistent_kept (pb pb' : ProgressBar.t) :
  m_max_size pb' = m_max_size pb -> m_enable pb' = m_enable pb ->
  consistent pb' = consistent pb.
Proof. unfold consistent. now intros -> ->. Qed.

(** A caller's calls on a consistent object: the sequence runs to its end
    with nothing undefined on the way. *)
Lemma session_events (cs : list call) :
  forall (pb : ProgressBar.t) (tr : trace),
  consistent pb = true ->
  exists evs,
    result (session s cs pb tr) = Returned tt
    /\ history (session s cs pb tr) = tr ++ evs
    /\ m_max_size (object (session s cs pb tr)) = m_max_size pb
    /\ m_enable (object (session s cs pb tr)) = m_enable pb
    /\ (m_enable pb = false -> evs = [])
    /\ m_do_cleanup (object (session s cs pb tr))
       = m_do_cleanup pb && negb (has_done cs).
Proof.
  induction cs as [ | c cs IH ]; intros pb tr Hc.
  - exists []. unfold result, history, object; simpl.
    rewrite app_nil_r, andb_true_r. repeat split; auto.
  - destruct (invoke_events c pb tr Hc)
      as (evs1 & Hr & Hh & Hmax & Hen & Hoff & Hcl).
    simpl session. unfold bind, try_catch_all.
    destruct (invoke s c pb tr) as [[r pb1] tr1].
    unfold result, history, object in Hr, Hh, Hmax, Hen, Hcl; simpl in *.
    assert (Hc1 : consistent pb1 = true)
      by (rewrite (consistent_kept pb pb1 Hmax Hen); exact Hc).
    destruct (IH pb1 tr1 Hc1) as (evs2 & Hr2 & Hh2 & Hmax2 & Hen2 & Hoff2 & Hcl2).
    assert (Hgo : (let (p, tr') :=
                     match r with
                     | Returned _ | Thrown => (Returned tt, pb1, tr1)
                     | Undefined u => (Undefined u, pb1, tr1)
                     end in
                   let (o, pb') := p in
                   match o with
                   | Returned _ => session s cs pb' tr'
                   | Thrown => (Thrown, pb', tr')
                   | Undefined u => (Undefined u, pb', tr')
                   end) = session s cs pb1 tr1).
    { rewrite Hr. unfold ending. destruct (write_failed evs1); reflexivity. }
    rewrite Hgo. exists (evs1 ++ evs2).
    rewrite Hr2, Hh2, Hmax2, Hen2, Hcl2, Hh, Hmax, Hen, Hcl, app_assoc.
    repeat split; auto.
    + intros Hoff'. rewrite (Hoff Hoff'), (Hoff2 (eq_trans Hen Hoff')) by auto.
      reflexivity.
    + destruct c; simpl; try reflexivity. now rewrite andb_false_r.
Qed.

(** The destructor on a consistent object: it never throws; it does
    nothing when the cleanup flag is cleared or the object is disabled. *)
Lemma destroy_events (pb : ProgressBar.t) (tr : trace) :
  consistent pb = true ->
  exists evs,
    result (destroy s pb tr) = Returned tt
    /\ history (destroy s pb tr) = tr ++ evs
    /\ (m_do_cleanup pb = false -> evs = [] /\ object (destroy s pb tr) = pb)
    /\ (m_enable pb = false -> evs = []).
Proof.
  intros Hc. unfold destroy, bind, get, when.
  destruct (m_do_cleanup pb) eqn:Ecl.
  - destruct (invoke_events Done pb tr Hc) as (evs & Hr & Hh & _ & _ & Hoff & _).
    unfold invoke in Hr, Hh. unfold try_catch_all.
    destruct (done s pb tr) as [[r pb1] tr1].
    unfold result, history, object in *; simpl in *.
    exists evs. subst r tr1. unfold ending.
    destruct (write_failed evs); repeat split; auto; discriminate.
  - exists []. unfold ret, result, history, object; simpl.
    rewrite app_nil_r. repeat split; auto.
Qed.

End Members.

(** ** The rendered line *)

Section Lines.

Lemma text_app (a b : list string) :
  text (a ++ b) = (text a ++ text b)%string.
Proof.
  induction a as [ | c a IH ]; [reflexivity | ].
  change ((c :: a) ++ b) with (c :: (a ++ b)).
  now rewrite !text_cons, IH, append_assoc.
Qed.

Lemma skip_glyphs (c : ascii) (k n : nat) :
  skip k (glyphs c n) = glyphs c (n - k).
Proof.
  revert n. induction k as [ | k IH ]; intros n.
  - now rewrite Nat.sub_0_r.
  - destruct n as [ | n ]; [reflexivity | ]. simpl. apply IH.
Qed.

Lemma length_glyphs (c : ascii) (n : nat) : String.length (glyphs c n) = n.
Proof. induction n as [ | n IH ]; simpl; [reflexivity | now rewrite IH]. Qed.

Lemma before_glyphs (b c : ascii) (n : nat) (rest : string) :
  Ascii.eqb c b = false ->
  before b (glyphs c n ++ rest) = (glyphs c n ++ before b rest)%string.
Proof.
  intros Hne. induction n as [ | n IH ]; simpl; [reflexivity | ].
  now rewrite Hne, IH.
Qed.

(** The insertions between the brackets make up the cells. *)
Lemma text_body (num : Z) : 0 <= num -> text (body num) = cells num.
Proof.
  intros Hnum. unfold body, cells.
  destruct (Z.leb_spec length num) as [Hfull | Hpart];
    destruct (Z.ltb_spec num length) as [Hlt | Hge]; try lia.
  - reflexivity.
  - rewrite !text_cons. change (text []) with EmptyString.
    rewrite append_nil_r.
    change bar with (glyphs "=" 70). change spc with (glyphs " " 69).
    rewrite !skip_glyphs. unfold fills, blanks, length in *.
    replace (70 - Z.to_nat (70 - num))%nat with (Z.to_nat num) by lia.
    replace (69 - Z.to_nat num)%nat with (Z.to_nat (70 - 1 - num)) by lia.
    reflexivity.
Qed.

(** The cells are always [length] many. *)
Lemma length_cells (num : Z) :
  0 <= num -> String.length (cells num) = Z.to_nat length.
Proof.
  intros Hnum. unfold cells, fills, blanks, length.
  destruct (Z.ltb_spec num 70).
  - rewrite !length_append, !length_glyphs. simpl String.length. lia.
  - now rewrite length_glyphs.
Qed.

Lemma before_cells (num : Z) (rest : string) :
  before "]" (cells num ++ "]" ++ rest) = cells num.
Proof.
  unfold cells, fills, blanks. destruct (num <? length).
  - rewrite !append_assoc, before_glyphs by reflexivity.
    change (before "]" (">" ++ ?x)) with (">" ++ before "]" x)%string.
    rewrite before_glyphs by reflexivity.
    change (before "]" ("]" ++ rest)) with EmptyString.
    now rewrite append_nil_r.
  - rewrite before_glyphs by reflexivity.
    change (before "]" ("]" ++ rest)) with EmptyString.
    now rewrite append_nil_r.
Qed.

Lemma after_cells (num : Z) (rest : string) :
  after "]" (cells num ++ "]" ++ rest) = rest.
Proof.
  assert (Hg : forall c n r, Ascii.eqb c "]" = false ->
                 after "]" (glyphs c n ++ r) = after "]" r).
  { intros c n r Hc. induction n as [ | n IH ]; simpl; [reflexivity | ].
    now rewrite Hc. }
  unfold cells, fills, blanks. destruct (num <? length).
  - rewrite !append_assoc, Hg by reflexivity.
    change (after "]" (">" ++ ?x)) with (after "]" x).
    now rewrite Hg by reflexivity.
  - now rewrite Hg by reflexivity.
Qed.

(** The line of one render. *)
Lemma text_frame (percent num : Z) :
  0 <= num ->
  text (frame percent num)
  = ("[" ++ cells num ++ "] " ++ padding percent ++ numeral percent
     ++ "% " ++ carriage_return)%string.
Proof.
  intros Hnum. unfold frame, padding.
  rewrite !text_app, text_body by exact Hnum.
  destruct (percent <? 10); destruct (percent <? 100); reflexivity.
Qed.

Lemma bar_body_frame (percent num : Z) :
  0 <= num -> bar_body (text (frame percent num)) = cells num.
Proof.
  intros Hnum. rewrite text_frame by exact Hnum. unfold bar_body.
  change (after "[" ("[" ++ ?x)) with x.
  apply (before_cells num (" " ++ _)).
Qed.

Lemma before_numeral (percent : Z) (rest : string) :
  before "%" (numeral percent ++ "% " ++ rest) = numeral percent.
Proof.
  assert (Hd : forall d, before "%" (NilEmpty.string_of_uint d ++ "% " ++ rest)
                         = NilEmpty.string_of_uint d).
  { induction d as [ | d IH | d IH | d IH | d IH | d IH | d IH | d IH
                     | d IH | d IH | d IH ];
      simpl in *; try rewrite IH; reflexivity. }
  unfold numeral, NilZero.string_of_uint.
  destruct (N.to_uint (Z.to_N percent)) as [ | d | d | d | d | d | d | d
                                             | d | d | d ];
    try apply Hd.
  reflexivity.
Qed.

(** The percent field of a rendered line: the percentage, right-justified
    in three columns. *)
Lemma percent_field_frame (percent num : Z) :
  0 <= num ->
  percent_field (text (frame percent num))
  = (padding percent ++ numeral percent)%string.
Proof.
  intros Hnum. rewrite text_frame by exact Hnum. unfold percent_field.
  set (tail := (padding percent ++ numeral percent ++ "% " ++ carriage_return)%string).
  assert (Hafter : after "]" ("[" ++ cells num ++ "] " ++ tail) = (" " ++ tail)%string)
    by exact (after_cells num (" " ++ tail)).
  rewrite Hafter. change (after " " (" " ++ tail)) with tail.
  unfold tail, padding.
  destruct (percent <? 10); destruct (percent <? 100).
  - change (" " ++ " ")%string with (glyphs " " 2).
    now rewrite before_glyphs, before_numeral.
  - change (" " ++ "")%string with (glyphs " " 1).
    now rewrite before_glyphs, before_numeral.
  - change ("" ++ " ")%string with (glyphs " " 1).
    now rewrite before_glyphs, before_numeral.
  - change ("" ++ "")%string with (glyphs " " 0).
    now rewrite before_glyphs, before_numeral.
Qed.

End Lines.

(** ** The member functions on a stream that does not throw *)

Section Quiet.

Lemma display_quiet (pb : ProgressBar.t) (tr : trace) :
  0 < m_max_size pb ->
  exists num,
    fill_count (percent_of pb) = Some num /\ 0 <= num
    /\ display quiet pb tr
       = (Returned tt, set_prev_percent (percent_of pb) pb,
          tr ++ division pb
             :: (if m_prev_percent pb =? percent_of pb then []
                 else map Put (frame (percent_of pb) num))).
Proof.
  intros Hmax.
  destruct (fill_count_defined (percent_of pb) (percent_in_range pb Hmax))
    as (num & Hnum & Hlo & _).
  exists num. split; [exact Hnum | ]. split; [exact Hlo | ].
  rewrite display_eq by lia.
  destruct (Z.eqb_spec (m_prev_percent pb) (percent_of pb)) as [Heq | Hne].
  - now rewrite <- Heq, set_prev_percent_same.
  - now rewrite Hnum, puts_quiet, <- app_assoc.
Qed.

Lemma update_enabled (s : stream) (x : Z) (pb : ProgressBar.t) (tr : trace) :
  m_enable pb = true ->
  update s x pb tr = display s (set_current_size x pb) tr.
Proof. intros He. unfold update, bind, get, assign. now rewrite He. Qed.

Lemma file_done_enabled (s : stream) (x : Z) (pb : ProgressBar.t) (tr : trace) :
  m_enable pb = true ->
  file_done s x pb tr
  = display s
      (set_current_size 0 (set_done_size (SizeT.add (m_done_size pb) x) pb)) tr.
Proof. intros He. unfold file_done, bind, get, assign, when. now rewrite He. Qed.

Lemma done_enabled (s : stream) (pb : ProgressBar.t) (tr : trace) :
  m_enable pb = true ->
  done s pb tr
  = (display s ;; cerr s newline)
      (set_current_size 0
         (set_done_size (m_max_size pb) (set_do_cleanup false pb))) tr.
Proof.
  intros He. unfold done, bind, get, assign, when. cbv beta iota.
  change (m_enable (set_do_cleanup false pb)) with (m_enable pb).
  now rewrite He.
Qed.

Lemma remove_quiet (pb : ProgressBar.t) (tr : trace) :
  m_enable pb = true ->
  remove quiet pb tr
  = (Returned tt, set_prev_percent (100 + 1) pb,
     tr ++ [Put spc; Put ("         " ++ carriage_return)]).
Proof.
  intros He. unfold remove, bind, get, assign, when, cerr, quiet.
  rewrite He. cbv beta iota. now rewrite <- app_assoc.
Qed.

End Quiet.

(** * The properties of the specification *)

Section RenderStep.

(** C1.  On a renderer constructed with [max_size = 100] and
    [enable = true], [update(50)] as the first call renders a line whose
    percent field shows 50 and which has 35 fill glyphs, 35 being the fill
    count [size_t(50 * (70 / 100.0))] that [display] computes, which is
    also the integer [floor (50 * 70 / 100)]. *)
Theorem update_50_of_100 :
  let res := update quiet 50 (construct 100 true) [] in
  result res = Returned tt
  /\ m_prev_percent (object res) = 50
  /\ fill_count 50 = Some 35
  /\ 50 * length / 100 = 35
  /\ output (history res)
     = ("[" ++ fills 35 ++ ">" ++ blanks 34 ++ "]  50% " ++ carriage_return)%string
  /\ percent_field (output (history res)) = " 50"%string
  /\ count "=" (output (history res)) = 35%nat.
Proof. vm_compute. repeat split. Qed.

(** The render of C1 has 34 blank cells, not the [70 - 35] of the
    specification's render step. *)
Lemma update_50_body_not_claimed :
  let res := update quiet 50 (construct 100 true) [] in
  fill_count 50 = Some 35
  /\ bar_body (output (history res)) = (fills 35 ++ ">" ++ blanks 34)%string
  /\ bar_body (output (history res)) <> claimed_body 35.
Proof.
  split; [vm_compute; reflexivity | ]. split; [vm_compute; reflexivity | ].
  intros H. apply (f_equal String.length) in H. vm_compute in H. discriminate.
Qed.

(** C2, as the code has it.  For every render ([display] on a state whose
    percentage differs from the one rendered last) with computed fill
    count [num]: when [num < 70] the cells between ['['] and [']'] are
    [num] fill glyphs, one ['>'] and [69 - num] blanks; when [num >= 70]
    they are the 70 fill glyphs alone.  Either way there are 70 cells. *)
Theorem render_cells (pb : ProgressBar.t) (tr : trace) (num : Z) :
  0 < m_max_size pb ->
  m_prev_percent pb <> percent_of pb ->
  fill_count (percent_of pb) = Some num ->
  exists line,
    output (history (display quiet pb tr)) = (output tr ++ line)%string
    /\ bar_body line
       = (if (num <? 70)%Z then fills num ++ ">" ++ blanks (69 - num)
          else fills 70)%string
    /\ String.length (bar_body line) = 70%nat.
Proof.
  intros Hmax Hne Hnum.
  pose proof (fill_count_nonneg _ _ Hnum) as Hnn.
  destruct (display_quiet pb tr Hmax) as (num' & Hnum' & _ & Heq).
  assert (num' = num) by congruence. subst num'.
  apply Z.eqb_neq in Hne. rewrite Hne in Heq.
  exists (text (frame (percent_of pb) num)).
  rewrite Heq. unfold history. cbn [snd].
  rewrite output_app. cbn [output]. rewrite output_puts.
  split; [reflexivity | ].
  rewrite bar_body_frame by exact Hnn.
  split; [reflexivity | ].
  apply (length_cells num Hnn).
Qed.

Lemma render_cells_witness :
  exists line,
    output (history (display quiet (set_current_size 50 (construct 100 true)) []))
    = (output [] ++ line)%string
    /\ bar_body line
       = (if (35 <? 70)%Z then fills 35 ++ ">" ++ blanks (69 - 35)
          else fills 70)%string
    /\ String.length (bar_body line) = 70%nat.
Proof.
  apply (render_cells (set_current_size 50 (construct 100 true)) [] 35).
  - reflexivity.
  - vm_compute. discriminate.
  - vm_compute. reflexivity.
Defined.

End RenderStep.

Section Finishing.

Lemma fill_count_100 : fill_count 100 = Some 70.
Proof. vm_compute. reflexivity. Qed.

Lemma text_frame_100 : text (frame 100 70) = full_line.
Proof. vm_compute. reflexivity. Qed.

Lemma percent_of_finished (pb : ProgressBar.t) :
  0 < m_max_size pb -> 100 * m_max_size pb < SizeT.modulus ->
  percent_of (finished pb) = 100.
Proof.
  intros Hpos Hfit. unfold percent_of, hundredfold, finished. cbn.
  unfold SizeT.mul, SizeT.add, SizeT.wrap.
  rewrite Z.add_0_r, (Z.mod_small (m_max_size pb)) by lia.
  rewrite Z.mod_small by lia.
  apply Z.div_mul. lia.
Qed.

Lemma done_quiet (pb : ProgressBar.t) (tr : trace) :
  m_enable pb = true ->
  0 < m_max_size pb -> 100 * m_max_size pb < SizeT.modulus ->
  done quiet pb tr
  = (Returned tt, set_prev_percent 100 (finished pb),
     tr ++ division (finished pb)
        :: (if m_prev_percent pb =? 100 then [] else map Put (frame 100 70))
        ++ [Put newline]).
Proof.
  intros He Hpos Hfit. rewrite done_enabled by exact He. fold (finished pb).
  unfold bind.
  destruct (display_quiet (finished pb) tr Hpos) as (num & Hnum & _ & Heq).
  rewrite percent_of_finished in Hnum, Heq by assumption.
  rewrite fill_count_100 in Hnum. injection Hnum as <-.
  rewrite Heq. unfold cerr, quiet.
  change (m_prev_percent (finished pb)) with (m_prev_percent pb).
  now rewrite <- app_assoc.
Qed.

(** On a fresh renderer the first [done()] writes the full line and a
    newline; the second writes the newline only, not the line again. *)
Lemma second_done_writes_newline_only :
  let first := done quiet (construct 100 true) [] in
  let second := done quiet (object first) (history first) in
  output (history first) = (full_line ++ newline)%string
  /\ output (history second) = (output (history first) ++ newline)%string
  /\ output (history second)
     <> (output (history first) ++ full_line ++ newline)%string.
Proof.
  split; [vm_compute; reflexivity | ]. split; [vm_compute; reflexivity | ].
  intros H. apply (f_equal String.length) in H. vm_compute in H. discriminate.
Qed.

(** C3, as the code has it.  On an enabled renderer whose total times 100
    fits [size_t], every [done()] returns, leaves the rendered percentage
    at 100 with [done_size = max_size], [current_size = 0] and the cleanup
    flag cleared, and writes the 100% line, unless 100 is the percentage
    rendered last, then one newline; a [done()] that follows it writes the
    newline alone. *)
Theorem done_renders_100 (pb : ProgressBar.t) (tr : trace) :
  m_enable pb = true ->
  0 < m_max_size pb -> 100 * m_max_size pb < SizeT.modulus ->
  let first := done quiet pb tr in
  let second := done quiet (object first) (history first) in
  result first = Returned tt
  /\ output (history first)
     = (output tr
        ++ (if (m_prev_percent pb =? 100)%Z then "" else full_line)
        ++ newline)%string
  /\ percent_field full_line = "100"%string
  /\ m_prev_percent (object first) = 100
  /\ m_done_size (object first) = m_max_size pb
  /\ m_current_size (object first) = 0
  /\ m_do_cleanup (object first) = false
  /\ output (history second) = (output (history first) ++ newline)%string.
Proof.
  intros He Hpos Hfit first second.
  assert (Hfirst : first = done quiet pb tr) by reflexivity.
  rewrite done_quiet in Hfirst by assumption.
  assert (Hout : forall (b : bool) (h : trace) (pb' : ProgressBar.t),
            output (h ++ division pb'
                      :: (if b then [] else map Put (frame 100 70))
                      ++ [Put newline])
            = (output h ++ (if b then "" else full_line) ++ newline)%string).
  { intros b h pb'. rewrite output_app. cbn [output division].
    rewrite output_app. destruct b.
    - reflexivity.
    - now rewrite output_puts, text_frame_100. }
  assert (Hsecond : second
            = done quiet (set_prev_percent 100 (finished pb)) (history first)).
  { unfold second. now rewrite Hfirst. }
  rewrite done_quiet in Hsecond by (cbn; assumption).
  rewrite Hsecond, Hfirst. unfold result, history, object. cbn [fst snd].
  repeat split.
  - apply Hout.
  - cbn [set_prev_percent m_prev_percent Z.eqb Pos.eqb].
    apply (Hout true).
Qed.

Lemma done_renders_100_witness :
  let first := done quiet (construct 100 true) [] in
  output (history first) = (full_line ++ newline)%string
  /\ m_prev_percent (object first) = 100.
Proof.
  destruct (done_renders_100 (construct 100 true) [])
    as (_ & Hout & _ & Hprev & _); [reflexivity | reflexivity | reflexivity | ].
  split; [exact Hout | exact Hprev].
Defined.

End Finishing.

Section DoneSize.

Variable s : stream.

Lemma done_size_display (pb : ProgressBar.t) (tr : trace) :
  m_done_size (object (display s pb tr)) = m_done_size pb.
Proof. destruct (display_object s pb tr) as (p & ->). reflexivity. Qed.

(** [done()] changes [done_size] without any [file_done], and can lower
    it. *)
Lemma done_changes_done_size :
  let fresh := construct 100 true in
  m_done_size fresh = 0
  /\ m_done_size (object (session quiet [Done] fresh [])) = 100
  /\ m_done_size (object (session quiet [FileDone 200] fresh [])) = 200
  /\ m_done_size (object (session quiet [FileDone 200; Done] fresh [])) = 100.
Proof. vm_compute. repeat split. Qed.

(** C4, as the code has it.  [done_size] starts at 0.  [update] and
    [remove] never change it.  [file_done] on an enabled renderer replaces
    it by [done_size + file_size] reduced modulo [2^64], which is the sum
    itself when the sum fits [size_t], so that it does not decrease then;
    on a disabled renderer [file_done] leaves it.  [done] on an enabled
    renderer sets it to [max_size], and leaves it on a disabled one. *)
Theorem done_size_changes (max_size : Z) (enable : bool)
    (pb : ProgressBar.t) (tr : trace) (x : Z) :
  m_done_size (construct max_size enable) = 0
  /\ m_done_size (object (update s x pb tr)) = m_done_size pb
  /\ m_done_size (object (remove s pb tr)) = m_done_size pb
  /\ m_done_size (object (file_done s x pb tr))
     = (if m_enable pb then SizeT.add (m_done_size pb) x else m_done_size pb)
  /\ (0 <= m_done_size pb -> 0 <= x -> m_done_size pb + x < SizeT.modulus ->
      SizeT.add (m_done_size pb) x = m_done_size pb + x
      /\ m_done_size pb <= m_done_size (object (file_done s x pb tr)))
  /\ m_done_size (object (done s pb tr))
     = (if m_enable pb then m_max_size pb else m_done_size pb).
Proof.
  assert (Hfd : m_done_size (object (file_done s x pb tr))
     = (if m_enable pb then SizeT.add (m_done_size pb) x else m_done_size pb)).
  { destruct (m_enable pb) eqn:He.
    - rewrite file_done_enabled by exact He. now rewrite done_size_display.
    - unfold file_done, bind, get, when. now rewrite He. }
  split; [reflexivity | ]. split; [ | split; [ | split; [exact Hfd | split] ] ].
  - destruct (m_enable pb) eqn:He.
    + rewrite update_enabled by exact He. now rewrite done_size_display.
    + unfold update, bind, get. now rewrite He.
  - unfold remove, bind, get, when, assign, cerr.
    destruct (m_enable pb); [ | reflexivity].
    destruct (s tr spc); [reflexivity | ].
    destruct (s (tr ++ [Put spc]) _); reflexivity.
  - intros Hd Hx Hfit.
    assert (Hadd : SizeT.add (m_done_size pb) x = m_done_size pb + x)
      by (unfold SizeT.add, SizeT.wrap; apply Z.mod_small; lia).
    split; [exact Hadd | ].
    rewrite Hfd. destruct (m_enable pb); lia.
  - destruct (m_enable pb) eqn:He.
    + rewrite done_enabled by exact He. unfold bind.
      pose proof (done_size_display
        (set_current_size 0
           (set_done_size (m_max_size pb) (set_do_cleanup false pb))) tr) as Hd.
      destruct (display s _ tr) as [[r pb1] tr1].
      unfold object in Hd. cbn [fst snd] in Hd.
      destruct r as [ [] | | u ]; [ | exact Hd | exact Hd ].
      unfold cerr. destruct (s tr1 newline); exact Hd.
    + unfold done, bind, get, assign, when. cbv beta iota.
      change (m_enable (set_do_cleanup false pb)) with (m_enable pb).
      now rewrite He.
Qed.

End DoneSize.

Lemma done_size_changes_witness :
  SizeT.add (m_done_size (construct 100 true)) 40
  = m_done_size (construct 100 true) + 40
  /\ m_done_size (construct 100 true)
     <= m_done_size (object (file_done quiet 40 (construct 100 true) [])).
Proof.
  destruct (done_size_changes quiet 100 true (construct 100 true) [] 40)
    as (_ & _ & _ & _ & H & _).
  apply H; vm_compute; congruence.
Defined.

Section Disabled.

Variable s : stream.

(** The life of an object is its session followed by its destructor. *)
Lemma lifetime_eq (max_size : Z) (enable : bool) (cs : list call) :
  let live := session s cs (construct max_size enable) [] in
  lifetime s max_size enable cs = destroy s (object live) (history live).
Proof.
  intros live. unfold lifetime, bind.
  destruct (session_events s cs (construct max_size enable) []
              (consistent_construct max_size enable)) as (evs & Hr & _).
  fold live in Hr |- *. destruct live as [[r pb] tr].
  unfold result in Hr. cbn [fst] in Hr. subst r. reflexivity.
Qed.

(** C5.  A renderer constructed with [enable = false] or with
    [max_size = 0] leaves no event at all, whatever the calls and through
    its destructor: nothing is written, the division of the percentage is
    never evaluated, and every call returns, so that no division by zero
    can take place. *)
Theorem disabled_is_silent (max_size : Z) (enable : bool) (cs : list call) :
  enable = false \/ max_size = 0 ->
  result (session s cs (construct max_size enable) []) = Returned tt
  /\ history (session s cs (construct max_size enable) []) = []
  /\ result (lifetime s max_size enable cs) = Returned tt
  /\ history (lifetime s max_size enable cs) = []
  /\ output (history (lifetime s max_size enable cs)) = EmptyString
  /\ divisions (history (lifetime s max_size enable cs)) = O.
Proof.
  intros Hoff.
  assert (Hen : m_enable (construct max_size enable) = false).
  { unfold construct. cbn. destruct Hoff as [-> | ->].
    - apply andb_false_r.
    - reflexivity. }
  destruct (session_events s cs (construct max_size enable) []
              (consistent_construct max_size enable))
    as (evs & Hr & Hh & Hmax & Hen' & Hnil & _).
  rewrite (Hnil Hen) in Hh. cbn [app] in Hh.
  assert (Hlife : result (lifetime s max_size enable cs) = Returned tt
                  /\ history (lifetime s max_size enable cs) = []).
  { rewrite lifetime_eq.
    set (live := session s cs (construct max_size enable) []) in *.
    assert (Hc : consistent (object live) = true).
    { rewrite (consistent_kept _ _ Hmax Hen'). apply consistent_construct. }
    destruct (destroy_events s (object live) (history live) Hc)
      as (evs' & Hr' & Hh' & _ & Hnil').
    rewrite Hen', Hen in Hnil'. rewrite (Hnil' eq_refl), app_nil_r in Hh'.
    split; [exact Hr' | ]. rewrite Hh'. exact Hh. }
  destruct Hlife as [Hlr Hlh].
  rewrite Hlh. repeat split; assumption.
Qed.

End Disabled.

Lemma disabled_is_silent_witness :
  history (lifetime broken 0 true [Update 5; FileDone 5; Remove; Done]) = []
  /\ history (lifetime quiet 100 false [Update 50; Done]) = [].
Proof.
  split.
  - apply (disabled_is_silent broken 0 true [Update 5; FileDone 5; Remove; Done]).
    right. reflexivity.
  - apply (disabled_is_silent quiet 100 false [Update 50; Done]).
    left. reflexivity.
Defined.

Section Deduplication.

Lemma append_same_nil (a b : string) : (a ++ b)%string = a -> b = EmptyString.
Proof.
  induction a as [ | c a IH ]; simpl; [auto | ].
  intros [= H]. auto.
Qed.

Lemma text_frame_nonempty (percent num : Z) :
  0 <= num -> text (frame percent num) <> EmptyString.
Proof. intros Hnum. rewrite text_frame by exact Hnum. discriminate. Qed.

(** [display] writes exactly when the percentage differs from the one it
    rendered last. *)
Lemma display_skips_iff (pb : ProgressBar.t) (tr : trace) :
  0 < m_max_size pb ->
  output (history (display quiet pb tr)) = output tr
  <-> m_prev_percent pb = percent_of pb.
Proof.
  intros Hmax.
  destruct (display_quiet pb tr Hmax) as (num & _ & Hnum & Heq).
  rewrite Heq. unfold history. cbn [snd].
  rewrite output_app. cbn [output division].
  destruct (Z.eqb_spec (m_prev_percent pb) (percent_of pb)) as [He | Hne].
  - split; [auto | ]. intros _. apply append_nil_r.
  - split; [ | contradiction]. intros H. apply append_same_nil in H.
    rewrite output_puts in H. now apply text_frame_nonempty in H.
Qed.

(** C6.  On an enabled renderer, when [update(x)] renders, a second
    [update(x)] right after it writes nothing and leaves the object as it
    is: [display] skips the render exactly when the percentage it computes
    is the one it rendered last. *)
Theorem repeated_update_is_silent (pb : ProgressBar.t) (tr : trace) (x : Z) :
  m_enable pb = true -> 0 < m_max_size pb ->
  m_prev_percent pb <> percent_of (set_current_size x pb) ->
  let first := update quiet x pb tr in
  let second := update quiet x (object first) (history first) in
  (exists line,
     line <> EmptyString
     /\ output (history first) = (output tr ++ line)%string)
  /\ output (history second) = output (history first)
  /\ object second = object first
  /\ (forall (pb' : ProgressBar.t) (tr' : trace),
        0 < m_max_size pb' ->
        output (history (display quiet pb' tr')) = output tr'
        <-> m_prev_percent pb' = percent_of pb').
Proof.
  intros He Hmax Hne first second.
  assert (Hfirst : first = display quiet (set_current_size x pb) tr)
    by (apply update_enabled; exact He).
  destruct (display_quiet (set_current_size x pb) tr Hmax)
    as (num & _ & Hnum & Heq).
  apply Z.eqb_neq in Hne.
  change (m_prev_percent (set_current_size x pb)) with (m_prev_percent pb) in Heq.
  rewrite Hne in Heq. rewrite Heq in Hfirst.
  set (p := percent_of (set_current_size x pb)) in *.
  assert (Hsecond : second
            = display quiet (set_current_size x (object first)) (history first)).
  { apply update_enabled. rewrite Hfirst. exact He. }
  destruct (display_quiet (set_current_size x (object first)) (history first))
    as (num' & _ & _ & Heq').
  { rewrite Hfirst. exact Hmax. }
  rewrite Heq' in Hsecond. clear Heq'.
  assert (Hp : percent_of (set_current_size x (object first)) = p)
    by (rewrite Hfirst; reflexivity).
  assert (Hprev : m_prev_percent (set_current_size x (object first)) = p)
    by (rewrite Hfirst; reflexivity).
  rewrite Hp, Hprev, Z.eqb_refl in Hsecond.
  split; [ | split; [ | split ] ].
  - exists (text (frame p num)). split; [now apply text_frame_nonempty | ].
    rewrite Hfirst. unfold history. cbn [snd].
    rewrite output_app. cbn [output division]. now rewrite output_puts.
  - rewrite Hsecond. unfold history at 1. cbn [snd].
    rewrite output_app. cbn [output division]. apply append_nil_r.
  - rewrite Hsecond, Hfirst. unfold object. cbn [fst snd].
    destruct pb; reflexivity.
  - intros pb' tr' Hmax'. now apply display_skips_iff.
Qed.

Lemma repeated_update_is_silent_witness :
  let first := update quiet 50 (construct 100 true) [] in
  let second := update quiet 50 (object first) (history first) in
  output (history second) = output (history first).
Proof.
  assert (Hne : m_prev_percent (construct 100 true)
                <> percent_of (set_current_size 50 (construct 100 true)))
    by (vm_compute; discriminate).
  exact (proj1 (proj2 (repeated_update_is_silent (construct 100 true) [] 50
                         eq_refl eq_refl Hne))).
Defined.

End Deduplication.

Section Removal.

(** On a renderer of total 100, [update(101)] renders 101 percent when 50
    was rendered before it; after [remove()] the same [update(101)] writes
    nothing: 101 is the value [remove()] resets [m_prev_percent] to. *)
Lemma removed_101_is_not_rendered_again :
  let shown := session quiet [Update 50; Update 101] (construct 100 true) [] in
  let removed := remove quiet (object shown) (history shown) in
  let again := update quiet 101 (object removed) (history removed) in
  m_enable (object shown) = true
  /\ percent_field (after carriage_return_char (output (history shown)))
     = "101"%string
  /\ m_prev_percent (object removed) = 100 + 1
  /\ result again = Returned tt
  /\ output (history again) = output (history removed).
Proof. vm_compute. repeat split. Qed.

(** C7, as the code has it.  On an enabled renderer, [remove()] resets
    [m_prev_percent] to 101, and the [update(x)] that follows renders,
    whatever was rendered before, provided the percentage it computes is
    not 101 itself; no percentage up to 100 is. *)
Theorem update_after_remove_renders (pb : ProgressBar.t) (tr : trace) (x : Z) :
  m_enable pb = true -> 0 < m_max_size pb ->
  percent_of (set_current_size x pb) <> 100 + 1 ->
  let removed := remove quiet pb tr in
  let again := update quiet x (object removed) (history removed) in
  m_prev_percent (object removed) = 100 + 1
  /\ result again = Returned tt
  /\ m_prev_percent (object again) = percent_of (set_current_size x pb)
  /\ exists num,
       fill_count (percent_of (set_current_size x pb)) = Some num
       /\ output (history again)
          = (output (history removed)
             ++ text (frame (percent_of (set_current_size x pb)) num))%string
       /\ text (frame (percent_of (set_current_size x pb)) num) <> EmptyString
       /\ percent_field (text (frame (percent_of (set_current_size x pb)) num))
          = (padding (percent_of (set_current_size x pb))
             ++ numeral (percent_of (set_current_size x pb)))%string.
Proof.
  intros He Hmax Hne removed again.
  assert (Hremoved : removed = remove quiet pb tr) by reflexivity.
  rewrite remove_quiet in Hremoved by exact He.
  assert (Hagain : again
            = display quiet (set_current_size x (object removed))
                (history removed)).
  { apply update_enabled. rewrite Hremoved. exact He. }
  destruct (display_quiet (set_current_size x (object removed))
              (history removed)) as (num & Hnum & Hnn & Heq).
  { rewrite Hremoved. exact Hmax. }
  rewrite Heq in Hagain. clear Heq.
  assert (Hp : percent_of (set_current_size x (object removed))
               = percent_of (set_current_size x pb))
    by (rewrite Hremoved; reflexivity).
  assert (Hprev : m_prev_percent (set_current_size x (object removed)) = 100 + 1)
    by (rewrite Hremoved; reflexivity).
  rewrite Hp in Hnum, Hagain. rewrite Hprev in Hagain.
  set (p := percent_of (set_current_size x pb)) in *.
  replace (100 + 1 =? p) with false in Hagain
    by (symmetry; apply Z.eqb_neq; auto).
  split; [rewrite Hremoved; reflexivity | ].
  split; [rewrite Hagain; reflexivity | ].
  split; [rewrite Hagain; reflexivity | ].
  exists num. split; [exact Hnum | ]. split; [ | split ].
  - rewrite Hagain. unfold history at 1. cbn [snd].
    rewrite output_app. cbn [output division]. now rewrite output_puts.
  - now apply text_frame_nonempty.
  - now apply percent_field_frame.
Qed.

Lemma update_after_remove_renders_witness :
  let shown := update quiet 50 (construct 100 true) [] in
  let removed := remove quiet (object shown) (history shown) in
  let again := update quiet 50 (object removed) (history removed) in
  m_prev_percent (object removed) = 100 + 1
  /\ result again = Returned tt.
Proof.
  assert (Hne : percent_of (set_current_size 50
                   (object (update quiet 50 (construct 100 true) [])))
                <> 100 + 1) by (vm_compute; discriminate).
  pose proof (update_after_remove_renders
                (object (update quiet 50 (construct 100 true) []))
                (history (update quiet 50 (construct 100 true) [])) 50
                eq_refl eq_refl Hne) as H.
  split; [exact (proj1 H) | exact (proj1 (proj2 H))].
Defined.

End Removal.

Section TwoSources.

(** With two sources of [2^62] units each, the hundredfold of the work
    done wraps around: after [file_done(A)] the renderer shows 0 percent
    where [100 * A / (A + B)] is 50, and 0 again after [update(B)]. *)
Lemma two_sources_wrap_around :
  let A := 2 ^ 62 in
  let B := 2 ^ 62 in
  let r1 := update quiet A (construct (A + B) true) [] in
  let r2 := file_done quiet A (object r1) (history r1) in
  let r3 := update quiet B (object r2) (history r2) in
  0 < A /\ 0 < B /\ A + B < SizeT.modulus
  /\ 100 * A / (A + B) = 50
  /\ m_prev_percent (object r2) = 0
  /\ percent_field (output (history r2)) = "  0"%string
  /\ m_prev_percent (object r3) = 0
  /\ output (history r3) = output (history r2).
Proof. vm_compute. repeat split. Qed.

Lemma hundredfold_small (pb : ProgressBar.t) :
  0 <= m_done_size pb + m_current_size pb ->
  100 * (m_done_size pb + m_current_size pb) < SizeT.modulus ->
  hundredfold pb = 100 * (m_done_size pb + m_current_size pb).
Proof.
  intros Hnn Hfit. unfold hundredfold, SizeT.mul, SizeT.add, SizeT.wrap.
  rewrite (Z.mod_small (m_done_size pb + m_current_size pb)) by lia.
  apply Z.mod_small. lia.
Qed.

(** C8, as the code has it.  For two sources of sizes [A] and [B], both
    positive and with [100 * (A + B)] within [size_t], on an enabled
    renderer of total [A + B]: [update(A)] renders [100 * A / (A + B)]
    percent; [file_done(A)] leaves that line on display, with
    [done_size = A] and [current_size = 0]; [update(B)] then renders 100
    percent. *)
Theorem two_sources (A B : Z) :
  0 < A -> 0 < B -> 100 * (A + B) < SizeT.modulus ->
  let r1 := update quiet A (construct (A + B) true) [] in
  let r2 := file_done quiet A (object r1) (history r1) in
  let r3 := update quiet B (object r2) (history r2) in
  exists num,
    fill_count (100 * A / (A + B)) = Some num
    /\ output (history r1) = text (frame (100 * A / (A + B)) num)
    /\ percent_field (output (history r1))
       = (padding (100 * A / (A + B)) ++ numeral (100 * A / (A + B)))%string
    /\ output (history r2) = output (history r1)
    /\ m_prev_percent (object r2) = 100 * A / (A + B)
    /\ m_done_size (object r2) = A
    /\ m_current_size (object r2) = 0
    /\ output (history r3) = (output (history r2) ++ full_line)%string
    /\ percent_field full_line = "100"%string
    /\ m_prev_percent (object r3) = 100.
Proof.
  intros HA HB Hfit r1 r2 r3.
  set (p := 100 * A / (A + B)).
  assert (Hen : (0 <? A + B) && true = true)
    by (rewrite andb_true_r; apply Z.ltb_lt; lia).
  assert (Hp100 : p < 100).
  { unfold p. apply Z.div_lt_upper_bound; lia. }
  assert (Hp0 : 0 <= p) by (unfold p; apply Z.div_pos; lia).
  (* update(A) *)
  set (pb1 := set_current_size A (construct (A + B) true)).
  assert (Hr1 : r1 = display quiet pb1 [])
    by (apply update_enabled; exact Hen).
  assert (Hp1 : percent_of pb1 = p).
  { unfold percent_of. rewrite hundredfold_small;
      unfold pb1;
      cbn [m_done_size m_current_size m_max_size set_current_size construct];
      try lia.
    unfold p. now rewrite Z.add_0_l. }
  destruct (display_quiet pb1 []) as (num & Hnum & Hnn & Heq1);
    [cbn; lia | ].
  rewrite Hp1 in Hnum, Heq1.
  change (m_prev_percent pb1) with (100 + 1) in Heq1.
  replace (100 + 1 =? p) with false in Heq1
    by (symmetry; apply Z.eqb_neq; lia).
  rewrite Heq1 in Hr1. clear Heq1.
  (* file_done(A) *)
  set (pb2 := set_current_size 0
                (set_done_size (SizeT.add (m_done_size (object r1)) A)
                   (object r1))).
  assert (Hr2 : r2 = display quiet pb2 (history r1))
    by (apply file_done_enabled; rewrite Hr1; exact Hen).
  assert (Hdone2 : m_done_size pb2 = A).
  { unfold pb2. rewrite Hr1. unfold object, pb1.
    cbn [fst snd m_done_size set_current_size set_done_size set_prev_percent
         construct].
    unfold SizeT.add, SizeT.wrap. rewrite Z.add_0_l.
    apply Z.mod_small. lia. }
  assert (Hcur2 : m_current_size pb2 = 0) by reflexivity.
  assert (Hmax2 : m_max_size pb2 = A + B) by (unfold pb2; rewrite Hr1; reflexivity).
  assert (Hprev2 : m_prev_percent pb2 = p) by (unfold pb2; rewrite Hr1; reflexivity).
  assert (Hen2 : m_enable pb2 = true) by (unfold pb2; rewrite Hr1; exact Hen).
  assert (Hp2 : percent_of pb2 = p).
  { unfold percent_of. rewrite hundredfold_small; rewrite ?Hdone2, ?Hcur2, ?Hmax2;
      try lia. unfold p. now rewrite Z.add_0_r. }
  destruct (display_quiet pb2 (history r1)) as (num2 & _ & _ & Heq2);
    [lia | ].
  rewrite Hp2, Hprev2, Z.eqb_refl in Heq2.
  rewrite Heq2 in Hr2. clear Heq2.
  (* update(B) *)
  set (pb3 := set_current_size B (object r2)).
  assert (Hr3 : r3 = display quiet pb3 (history r2)).
  { apply update_enabled. rewrite Hr2. exact Hen2. }
  assert (Hdone3 : m_done_size pb3 = A) by (unfold pb3; rewrite Hr2; exact Hdone2).
  assert (Hcur3 : m_current_size pb3 = B) by reflexivity.
  assert (Hmax3 : m_max_size pb3 = A + B) by (unfold pb3; rewrite Hr2; exact Hmax2).
  assert (Hprev3 : m_prev_percent pb3 = p) by (unfold pb3; rewrite Hr2; reflexivity).
  assert (Hp3 : percent_of pb3 = 100).
  { unfold percent_of. rewrite hundredfold_small; rewrite ?Hdone3, ?Hcur3, ?Hmax3;
      try lia. apply Z.div_mul. lia. }
  destruct (display_quiet pb3 (history r2)) as (num3 & Hnum3 & _ & Heq3);
    [lia | ].
  rewrite Hp3 in Hnum3. rewrite Hp3, Hprev3 in Heq3.
  rewrite fill_count_100 in Hnum3. injection Hnum3 as <-.
  replace (p =? 100) with false in Heq3 by (symmetry; apply Z.eqb_neq; lia).
  rewrite Heq3 in Hr3. clear Heq3.
  (* the three results *)
  assert (Hout1 : output (history r1) = text (frame p num)).
  { rewrite Hr1. unfold history. cbn [snd app output division].
    apply output_puts. }
  assert (Hout2 : output (history r2) = output (history r1)).
  { rewrite Hr2. unfold history at 1. cbn [snd].
    rewrite output_app. cbn [output division]. apply append_nil_r. }
  exists num. split; [exact Hnum | ]. split; [exact Hout1 | ].
  split; [rewrite Hout1; now apply percent_field_frame | ].
  split; [exact Hout2 | ].
  split; [rewrite Hr2; reflexivity | ].
  split; [rewrite Hr2; exact Hdone2 | ].
  split; [rewrite Hr2; reflexivity | ].
  split; [ | split; [reflexivity | rewrite Hr3; reflexivity] ].
  rewrite Hr3. unfold history at 1. cbn [snd].
  rewrite output_app. cbn [output division].
  now rewrite output_puts, text_frame_100.
Qed.

Lemma two_sources_witness :
  let r1 := update quiet 30 (construct (30 + 70) true) [] in
  let r2 := file_done quiet 30 (object r1) (history r1) in
  let r3 := update quiet 70 (object r2) (history r2) in
  exists num,
    fill_count (100 * 30 / (30 + 70)) = Some num
    /\ output (history r1) = text (frame (100 * 30 / (30 + 70)) num)
    /\ percent_field (output (history r1))
       = (padding (100 * 30 / (30 + 70))
          ++ numeral (100 * 30 / (30 + 70)))%string
    /\ output (history r2) = output (history r1)
    /\ m_prev_percent (object r2) = 100 * 30 / (30 + 70)
    /\ m_done_size (object r2) = 30
    /\ m_current_size (object r2) = 0
    /\ output (history r3) = (output (history r2) ++ full_line)%string
    /\ percent_field full_line = "100"%string
    /\ m_prev_percent (object r3) = 100.
Proof.
  apply (two_sources 30 70); vm_compute; reflexivity.
Defined.

End TwoSources.

Section Teardown.

Variable s : stream.

(** An insertion after a computation does not touch the object. *)
Lemma object_then_cerr (m : M unit) (x : string) (pb : ProgressBar.t)
    (tr : trace) :
  object ((m ;; cerr s x) pb tr) = object (m pb tr).
Proof.
  unfold bind. destruct (m pb tr) as [[r pb1] tr1].
  destruct r as [ [] | | u ]; try reflexivity.
  unfold cerr. destruct (s tr1 x); reflexivity.
Qed.

(** What a call does to the cleanup flag, on any object. *)
Lemma do_cleanup_invoke (c : call) (pb : ProgressBar.t) (tr : trace) :
  m_do_cleanup (object (invoke s c pb tr))
  = match c with Done => false | _ => m_do_cleanup pb end.
Proof.
  destruct c as [x | x | | ]; unfold invoke.
  - destruct (m_enable pb) eqn:He.
    + rewrite update_enabled by exact He.
      destruct (display_object s (set_current_size x pb) tr) as (p & ->).
      reflexivity.
    + unfold update, bind, get. now rewrite He.
  - destruct (m_enable pb) eqn:He.
    + rewrite file_done_enabled by exact He.
      destruct (display_object s
                  (set_current_size 0
                     (set_done_size (SizeT.add (m_done_size pb) x) pb)) tr)
        as (p & ->).
      reflexivity.
    + unfold file_done, bind, get, when. now rewrite He.
  - destruct (m_enable pb) eqn:He.
    + rewrite done_enabled by exact He. rewrite object_then_cerr.
      destruct (display_object s
                  (set_current_size 0
                     (set_done_size (m_max_size pb) (set_do_cleanup false pb)))
                  tr) as (p & ->).
      reflexivity.
    + unfold done, bind, get, assign, when. cbv beta iota.
      change (m_enable (set_do_cleanup false pb)) with (m_enable pb).
      now rewrite He.
  - unfold remove, bind, get, when, assign, cerr.
    destruct (m_enable pb); [ | reflexivity].
    destruct (s tr spc); [reflexivity | ].
    destruct (s (tr ++ [Put spc]) _); reflexivity.
Qed.

(** The state a caller leaves the object in. *)
Lemma session_state (max_size : Z) (enable : bool) (cs : list call) :
  let live := session s cs (construct max_size enable) [] in
  consistent (object live) = true
  /\ m_do_cleanup (object live) = negb (has_done cs).
Proof.
  intros live.
  destruct (session_events s cs (construct max_size enable) []
              (consistent_construct max_size enable))
    as (evs & _ & _ & Hmax & Hen & _ & Hcl).
  fold live in Hmax, Hen, Hcl. split.
  - rewrite (consistent_kept _ _ Hmax Hen). apply consistent_construct.
  - exact Hcl.
Qed.

(** From construction to destruction nothing is undefined, and no
    exception leaves the destructor. *)
Lemma lifetime_returns (max_size : Z) (enable : bool) (cs : list call) :
  result (lifetime s max_size enable cs) = Returned tt.
Proof.
  rewrite lifetime_eq.
  destruct (session_state max_size enable cs) as [Hc _].
  destruct (destroy_events s _ (history (session s cs (construct max_size enable) [])) Hc)
    as (evs & Hr & _).
  exact Hr.
Qed.

(** C9.  When [done()] was never called, the destructor leaves the object
    and the stream exactly as a call of [done()] at that point does, and
    it returns: it does not throw, also when an insertion fails.  A member
    function the caller invokes throws exactly when one of its insertions
    failed; on a stream whose insertions fail, [done()] throws where the
    destructor returns. *)
Theorem destructor_is_done (max_size : Z) (enable : bool) (cs : list call) :
  has_done cs = false ->
  let live := session s cs (construct max_size enable) [] in
  let explicit := done s (object live) (history live) in
  let implicit := destroy s (object live) (history live) in
  lifetime s max_size enable cs = implicit
  /\ object implicit = object explicit
  /\ history implicit = history explicit
  /\ result implicit = Returned tt
  /\ (forall c : call,
        exists evs,
          history (invoke s c (object live) (history live))
          = history live ++ evs
          /\ result (invoke s c (object live) (history live)) = ending evs)
  /\ result (done broken (construct 100 true) []) = Thrown
  /\ result (destroy broken (construct 100 true) []) = Returned tt
  /\ history (destroy broken (construct 100 true) [])
     = history (done broken (construct 100 true) []).
Proof.
  intros Hnone live explicit implicit.
  destruct (session_state max_size enable cs) as [Hc Hcl].
  fold live in Hc, Hcl. rewrite Hnone in Hcl. cbn [negb] in Hcl.
  split; [apply lifetime_eq | ].
  assert (Himp : implicit = try_catch_all (done s) (object live) (history live)).
  { unfold implicit, destroy, bind, get, when. now rewrite Hcl. }
  destruct (invoke_events s Done (object live) (history live) Hc)
    as (evs & Hr & _).
  unfold invoke in Hr. fold explicit in Hr.
  unfold try_catch_all in Himp. fold explicit in Himp.
  destruct explicit as [[r pb1] tr1].
  unfold result in Hr. cbn [fst] in Hr.
  assert (Himp' : implicit = (Returned tt, pb1, tr1)).
  { rewrite Himp, Hr. unfold ending. destruct (write_failed evs); reflexivity. }
  rewrite Himp'.
  split; [reflexivity | ]. split; [reflexivity | ]. split; [reflexivity | ].
  split.
  - intros c.
    destruct (invoke_events s c (object live) (history live) Hc)
      as (evs' & Hr' & Hh' & _).
    exists evs'. split; assumption.
  - vm_compute. repeat split.
Qed.

(** C10.  [done()] clears the cleanup flag on any object, enabled or not,
    and whether or not it throws; no call sets the flag again; so once
    [done()] was called the destructor does nothing: it returns, with the
    object and the stream as they were. *)
Theorem done_disarms_destructor (max_size : Z) (enable : bool)
    (cs : list call) :
  has_done cs = true ->
  let live := session s cs (construct max_size enable) [] in
  (forall (pb : ProgressBar.t) (tr : trace),
     m_do_cleanup (object (done s pb tr)) = false)
  /\ (forall (c : call) (pb : ProgressBar.t) (tr : trace),
        m_do_cleanup pb = false ->
        m_do_cleanup (object (invoke s c pb tr)) = false)
  /\ m_do_cleanup (object live) = false
  /\ destroy s (object live) (history live)
     = (Returned tt, object live, history live)
  /\ lifetime s max_size enable cs = (Returned tt, object live, history live).
Proof.
  intros Hdone live.
  destruct (session_state max_size enable cs) as [Hc Hcl].
  fold live in Hc, Hcl. rewrite Hdone in Hcl. cbn [negb] in Hcl.
  assert (Hdestroy : destroy s (object live) (history live)
                     = (Returned tt, object live, history live)).
  { unfold destroy, bind, get, when. now rewrite Hcl. }
  split; [intros pb tr; apply (do_cleanup_invoke Done) | ].
  split.
  - intros c pb tr Hoff. rewrite do_cleanup_invoke. destruct c; auto.
  - split; [exact Hcl | ]. split; [exact Hdestroy | ].
    now rewrite lifetime_eq.
Qed.

End Teardown.

Lemma destructor_is_done_witness :
  let live := session broken [Update 50; Remove] (construct 100 true) [] in
  lifetime broken 100 true [Update 50; Remove]
  = destroy broken (object live) (history live)
  /\ result (destroy broken (object live) (history live)) = Returned tt.
Proof.
  pose proof (destructor_is_done broken 100 true [Update 50; Remove] eq_refl)
    as H.
  split; [exact (proj1 H) | exact (proj1 (proj2 (proj2 (proj2 H))))].
Defined.

Lemma done_disarms_destructor_witness :
  let live := session quiet [Update 50; Done; Update 60] (construct 100 true) [] in
  m_do_cleanup (object live) = false
  /\ lifetime quiet 100 true [Update 50; Done; Update 60]
     = (Returned tt, object live, history live).
Proof.
  pose proof (done_disarms_destructor quiet 100 true
                [Update 50; Done; Update 60] eq_refl) as H.
  split; [exact (proj1 (proj2 (proj2 H))) | exact (proj2 (proj2 (proj2 (proj2 H))))].
Defined.

(** * Further properties of the code *)

(** ** The percentage and the fill count in legal use *)

Section LegalUse.

(** A property checked on every integer below [n] holds of each of them. *)
Lemma below_forall (P : Z -> bool) (n : nat) :
  forallb P (below n) = true ->
  forall p : Z, 0 <= p < Z.of_nat n -> P p = true.
Proof.
  intros Hall p Hp. rewrite forallb_forall in Hall. apply Hall.
  unfold below. apply in_map_iff. exists (Z.to_nat p). split; [lia | ].
  apply in_seq. lia.
Qed.

(** [display], line 80: while the work reported stays within the total and
    a hundred times the total fits [size_t], the percentage is the exact
    quotient, truncated; it lies between 0 and 100 and is 100 exactly when
    the work reported is the total. *)
Theorem percent_in_legal_use (pb : ProgressBar.t) :
  0 < m_max_size pb ->
  0 <= m_done_size pb -> 0 <= m_current_size pb ->
  m_done_size pb + m_current_size pb <= m_max_size pb ->
  100 * m_max_size pb < SizeT.modulus ->
  percent_of pb = 100 * (m_done_size pb + m_current_size pb) / m_max_size pb
  /\ 0 <= percent_of pb <= 100
  /\ percent_of pb * m_max_size pb
     <= 100 * (m_done_size pb + m_current_size pb)
     < (percent_of pb + 1) * m_max_size pb
  /\ (percent_of pb = 100
      <-> m_done_size pb + m_current_size pb = m_max_size pb).
Proof.
  intros Hmax Hd Hc Hle Hfit.
  set (w := m_done_size pb + m_current_size pb) in *.
  assert (Hp : percent_of pb = 100 * w / m_max_size pb).
  { unfold percent_of. rewrite hundredfold_small; fold w; [reflexivity | lia | lia]. }
  rewrite Hp. set (M := m_max_size pb) in *.
  pose proof (Z.mul_div_le (100 * w) M Hmax) as Hlo'.
  pose proof (Z.mul_succ_div_gt (100 * w) M Hmax) as Hhi'.
  assert (Hlo : 100 * w / M * M <= 100 * w) by lia.
  assert (Hhi : 100 * w < (100 * w / M + 1) * M) by lia.
  assert (H0 : 0 <= 100 * w / M) by (apply Z.div_pos; lia).
  assert (H100 : 100 * w / M <= 100) by (apply Z.div_le_upper_bound; lia).
  split; [reflexivity | ]. split; [lia | ]. split; [lia | ].
  split.
  - intros Heq. rewrite Heq in Hlo. lia.
  - intros Heq. rewrite Heq. apply Z.div_mul. lia.
Qed.

Lemma percent_in_legal_use_witness :
  percent_of (set_current_size 1 (construct 3 true)) = 100 * (0 + 1) / 3
  /\ 0 <= percent_of (set_current_size 1 (construct 3 true)) <= 100.
Proof.
  pose proof (percent_in_legal_use (set_current_size 1 (construct 3 true))) as H.
  destruct H as (Hp & Hb & _); try (vm_compute; congruence).
  split; [exact Hp | exact Hb].
Defined.

(** [display], line 80: within one source the percentage does not go down
    when the caller's [current_size] does not. *)
Theorem percent_is_monotone (pb : ProgressBar.t) (x y : Z) :
  0 < m_max_size pb -> 0 <= m_done_size pb ->
  0 <= x -> x <= y ->
  100 * (m_done_size pb + y) < SizeT.modulus ->
  percent_of (set_current_size x pb) <= percent_of (set_current_size y pb).
Proof.
  intros Hmax Hd Hx Hxy Hfit. unfold percent_of.
  rewrite !hundredfold_small;
    cbn [m_done_size m_current_size m_max_size set_current_size]; try lia.
  apply Z.div_le_mono; lia.
Qed.

Lemma percent_is_monotone_witness :
  percent_of (set_current_size 10 (construct 30 true))
  <= percent_of (set_current_size 20 (construct 30 true)).
Proof.
  apply (percent_is_monotone (construct 30 true) 10 20);
    vm_compute; congruence.
Defined.

Lemma fill_count_checked :
  forallb (fun p => match fill_count p with
                    | Some num => num =? tenths p
                    | None => false
                    end) (below 101) = true.
Proof. vm_compute. reflexivity. Qed.

(** [display], line 86: for the percentages 0 to 100 the binary64 product
    [percent * (70 / 100.0)], truncated, is [floor (7 * percent / 10)],
    except at 90, where the product falls just short of 63 and the fill
    count is 62.  The fill count does not go down when the percentage goes
    up, never exceeds 70, and is 70 at 100 percent only: so a ['>'] is
    drawn at every percentage below 100. *)
Theorem fill_count_in_legal_use (p q : Z) :
  0 <= p -> p <= q -> q <= 100 ->
  exists n m,
    fill_count p = Some n /\ fill_count q = Some m
    /\ n = (if p =? 90 then 62 else 7 * p / 10)
    /\ 0 <= n /\ n <= m /\ m <= 70
    /\ (m = 70 <-> q = 100).
Proof.
  intros Hp Hpq Hq.
  pose proof (below_forall _ 101 fill_count_checked) as Hall.
  pose proof (Hall p ltac:(lia)) as Hn. pose proof (Hall q ltac:(lia)) as Hm.
  cbv beta in Hn, Hm.
  destruct (fill_count p) as [n | ]; [ | discriminate].
  destruct (fill_count q) as [m | ]; [ | discriminate].
  apply Z.eqb_eq in Hn, Hm. exists n, m.
  unfold tenths in Hn, Hm.
  split; [reflexivity | ]. split; [reflexivity | ]. split; [exact Hn | ].
  pose proof (Z.div_mod (7 * p) 10 ltac:(lia)) as Hdp.
  pose proof (Z.mod_pos_bound (7 * p) 10 ltac:(lia)) as Hrp.
  pose proof (Z.div_mod (7 * q) 10 ltac:(lia)) as Hdq.
  pose proof (Z.mod_pos_bound (7 * q) 10 ltac:(lia)) as Hrq.
  revert Hn Hm.
  destruct (Z.eqb_spec p 90); destruct (Z.eqb_spec q 90); intros -> ->;
    repeat split; intros; lia.
Qed.

Lemma fill_count_in_legal_use_witness :
  exists n m,
    fill_count 50 = Some n /\ fill_count 90 = Some m
    /\ n = (if 50 =? 90 then 62 else 7 * 50 / 10)
    /\ 0 <= n /\ n <= m /\ m <= 70
    /\ (m = 70 <-> 90 = 100).
Proof. apply (fill_count_in_legal_use 50 90); vm_compute; congruence. Defined.

End LegalUse.

(** ** The width of what is written *)

Section Widths.

Lemma field_width_checked :
  forallb (fun p => Nat.eqb (String.length (padding p ++ numeral p)) 3)
    (below 1000) = true.
Proof. vm_compute. reflexivity. Qed.

(** The percent field is three characters wide up to 999 percent. *)
Lemma field_width (percent : Z) :
  0 <= percent <= 999 ->
  String.length (padding percent ++ numeral percent) = 3%nat.
Proof.
  intros Hp. apply Nat.eqb_eq.
  apply (below_forall _ 1000 field_width_checked percent). lia.
Qed.

Lemma length_text_frame (percent num : Z) :
  0 <= num -> 0 <= percent <= 999 ->
  String.length (text (frame percent num)) = 79%nat.
Proof.
  intros Hnum Hp. rewrite text_frame by exact Hnum.
  pose proof (field_width percent Hp) as Hw.
  rewrite length_append in Hw.
  change ("] " ++ ?x)%string with ("]" ++ " " ++ x)%string.
  rewrite !length_append, length_cells by exact Hnum.
  cbn [String.length carriage_return]. unfold length. lia.
Qed.

(** [display], lines 87-100, and [remove], line 182: up to 999 percent a
    render writes 78 columns and a carriage return, whatever the fill
    count, and [remove()] writes 78 blanks and a carriage return: it
    blanks exactly the columns a rendered line occupies. *)
Theorem remove_covers_the_line (pb : ProgressBar.t) (tr : trace) :
  m_enable pb = true -> 0 < m_max_size pb ->
  m_prev_percent pb <> percent_of pb -> percent_of pb <= 999 ->
  exists line,
    output (history (display quiet pb tr))
    = (output tr ++ line ++ carriage_return)%string
    /\ String.length line = 78%nat
    /\ output (history (remove quiet pb tr))
       = (output tr ++ blanks 78 ++ carriage_return)%string.
Proof.
  intros He Hmax Hne Hp.
  destruct (display_quiet pb tr Hmax) as (num & Hnum & Hnn & Heq).
  apply Z.eqb_neq in Hne. rewrite Hne in Heq.
  pose proof (percent_in_range pb Hmax) as [Hp0 _].
  set (p := percent_of pb) in *.
  exists ("[" ++ cells num ++ "] " ++ padding p ++ numeral p ++ "% ")%string.
  split; [ | split ].
  - rewrite Heq. unfold history. cbn [snd].
    rewrite output_app. cbn [output division].
    rewrite output_puts, text_frame by exact Hnn.
    f_equal. now rewrite !append_assoc.
  - pose proof (length_text_frame p num Hnn ltac:(lia)) as Hlen.
    rewrite text_frame in Hlen by exact Hnn.
    change ("] " ++ ?x)%string with ("]" ++ " " ++ x)%string in Hlen |- *.
    change ("% " ++ carriage_return)%string
      with ("%" ++ " " ++ carriage_return)%string in Hlen.
    change ("% ")%string with ("%" ++ " ")%string.
    rewrite !length_append in Hlen |- *.
    cbn [String.length carriage_return] in Hlen |- *.
    change (String.length (" " ++ carriage_return)) with 2%nat in Hlen. lia.
  - rewrite remove_quiet by exact He. unfold history. cbn [snd].
    rewrite output_app. reflexivity.
Qed.

End Widths.

Lemma remove_covers_the_line_witness :
  exists line,
    output (history (display quiet (set_current_size 50 (construct 100 true)) []))
    = (output [] ++ line ++ carriage_return)%string
    /\ String.length line = 78%nat
    /\ output (history (remove quiet (set_current_size 50 (construct 100 true)) []))
       = (output [] ++ blanks 78 ++ carriage_return)%string.
Proof.
  apply (remove_covers_the_line (set_current_size 50 (construct 100 true)) []);
    vm_compute; congruence.
Defined.

(** ** The object across calls *)

Section Objects.

Variables s s' : stream.

(** Lines 112-115 and every member function: whatever the arguments, the
    calls and the stream, no division by zero, no conversion out of range
    and no pointer outside its literal is reached, in the caller's calls,
    in the destructor or in any call the caller could add; and the
    destructor returns. *)
Theorem nothing_is_undefined (max_size : Z) (enable : bool)
    (cs : list call) (c : call) :
  let live := session s cs (construct max_size enable) [] in
  result live = Returned tt
  /\ result (lifetime s max_size enable cs) = Returned tt
  /\ forall u : undefined,
       result (invoke s c (object live) (history live)) <> Undefined u.
Proof.
  intros live.
  destruct (session_events s cs (construct max_size enable) []
              (consistent_construct max_size enable)) as (evs & Hr & _).
  destruct (session_state s max_size enable cs) as [Hc _].
  fold live in Hr, Hc.
  split; [exact Hr | ]. split.
  - rewrite lifetime_eq. fold live.
    destruct (destroy_events s (object live) (history live) Hc)
      as (evs' & Hr' & _).
    exact Hr'.
  - intros u.
    destruct (invoke_events s c (object live) (history live) Hc)
      as (evs' & Hr' & _).
    rewrite Hr'. unfold ending. destruct (write_failed evs'); discriminate.
Qed.

(** The total and the enabled flag are what the constructor made them,
    after any calls and after the destructor: no call enables a disabled
    renderer or disables an enabled one, [done()] included. *)
Theorem total_and_flag_are_fixed (max_size : Z) (enable : bool)
    (cs : list call) :
  let live := session s cs (construct max_size enable) [] in
  m_max_size (object live) = max_size
  /\ m_enable (object live) = (0 <? max_size) && enable
  /\ m_max_size (object (lifetime s max_size enable cs)) = max_size
  /\ m_enable (object (lifetime s max_size enable cs))
     = (0 <? max_size) && enable.
Proof.
  intros live.
  destruct (session_events s cs (construct max_size enable) []
              (consistent_construct max_size enable))
    as (evs & _ & _ & Hmax & Hen & _).
  destruct (session_state s max_size enable cs) as [Hc Hcl].
  fold live in Hmax, Hen, Hc, Hcl.
  split; [exact Hmax | ]. split; [exact Hen | ].
  rewrite lifetime_eq. fold live.
  unfold destroy, bind, get, when.
  destruct (m_do_cleanup (object live)).
  - destruct (invoke_events s Done (object live) (history live) Hc)
      as (evs' & Hr' & _ & Hmax' & Hen' & _).
    unfold invoke in Hr', Hmax', Hen'. unfold try_catch_all.
    destruct (done s (object live) (history live)) as [[r pb1] tr1].
    unfold result, object in Hr', Hmax', Hen'. cbn [fst snd] in Hr', Hmax', Hen'.
    assert (Hobj : object (match r with
                           | Returned _ | Thrown => (Returned tt, pb1, tr1)
                           | Undefined u => (Undefined u, pb1, tr1)
                           end) = pb1) by (destruct r; reflexivity).
    rewrite Hobj, Hmax', Hen'. split; assumption.
  - split; assumption.
Qed.

(** [update], lines 136-144: the argument is the position in the current
    source, not an increment.  The object after [update(y)] is the same
    whether or not an [update(x)] came before it, on any streams. *)
Theorem update_overwrites (pb : ProgressBar.t) (tr tr' tr'' : trace)
    (x y : Z) :
  consistent pb = true ->
  object (update s y (object (update s' x pb tr)) tr')
  = object (update s y pb tr'').
Proof.
  intros Hc. destruct (m_enable pb) eqn:He.
  - pose proof (consistent_enabled pb Hc He) as Hmax.
    assert (Hobj : forall (z : Z) (q : ProgressBar.t) (st : stream) (h : trace),
              m_enable q = true -> 0 < m_max_size q ->
              object (update st z q h)
              = set_prev_percent (percent_of (set_current_size z q))
                  (set_current_size z q)).
    { intros z q st h Hq Hm. rewrite update_enabled by exact Hq.
      destruct (display_events st (set_current_size z q) h Hm) as (evs & -> & _).
      reflexivity. }
    rewrite (Hobj x pb s' tr He Hmax).
    rewrite Hobj; [ | exact He | exact Hmax].
    rewrite (Hobj y pb s tr'' He Hmax).
    destruct pb; reflexivity.
  - assert (Hoff : forall (z : Z) (st : stream) (h : trace),
              object (update st z pb h) = pb).
    { intros z st h. unfold update, bind, get. now rewrite He. }
    now rewrite !Hoff.
Qed.

End Objects.

Lemma update_overwrites_witness :
  object (update quiet 70 (object (update quiet 30 (construct 100 true) [])) [])
  = object (update quiet 70 (construct 100 true) []).
Proof.
  apply (update_overwrites quiet quiet (construct 100 true) [] [] [] 30 70).
  reflexivity.
Defined.

(** ** How the calls compose *)

Section Composition.

Variables s s' : stream.

Lemma add_add (d a b : Z) :
  SizeT.add (SizeT.add d a) b = SizeT.add d (a + b).
Proof.
  unfold SizeT.add, SizeT.wrap.
  rewrite Z.add_mod_idemp_l by (unfold SizeT.modulus, SizeT.bits; lia).
  f_equal. lia.
Qed.

Lemma object_update (st : stream) (z : Z) (q : ProgressBar.t) (h : trace) :
  m_enable q = true -> 0 < m_max_size q ->
  object (update st z q h)
  = set_prev_percent (percent_of (set_current_size z q)) (set_current_size z q).
Proof.
  intros Hq Hm. rewrite update_enabled by exact Hq.
  destruct (display_events st (set_current_size z q) h Hm) as (evs & -> & _).
  reflexivity.
Qed.

Lemma object_file_done (st : stream) (z : Z) (q : ProgressBar.t) (h : trace) :
  m_enable q = true -> 0 < m_max_size q ->
  object (file_done st z q h)
  = set_prev_percent
      (percent_of
         (set_current_size 0 (set_done_size (SizeT.add (m_done_size q) z) q)))
      (set_current_size 0 (set_done_size (SizeT.add (m_done_size q) z) q)).
Proof.
  intros Hq Hm. rewrite file_done_enabled by exact Hq.
  destruct (display_events st
              (set_current_size 0
                 (set_done_size (SizeT.add (m_done_size q) z) q)) h Hm)
    as (evs & -> & _).
  reflexivity.
Qed.

Lemma object_done (st : stream) (q : ProgressBar.t) (h : trace) :
  m_enable q = true -> 0 < m_max_size q ->
  object (done st q h)
  = set_prev_percent (percent_of (finished q)) (finished q).
Proof.
  intros Hq Hm. rewrite done_enabled by exact Hq. fold (finished q).
  rewrite object_then_cerr.
  destruct (display_events st (finished q) h Hm) as (evs & -> & _).
  reflexivity.
Qed.

(** [file_done], lines 152-158: finishing a source of size [a] and then one
    of size [b] leaves the object that finishing one source of size
    [a + b] leaves, sizes being added modulo [2^64] either way. *)
Theorem file_done_adds_up (pb : ProgressBar.t) (tr tr' tr'' : trace)
    (a b : Z) :
  consistent pb = true ->
  object (file_done s b (object (file_done s' a pb tr)) tr')
  = object (file_done s (a + b) pb tr'').
Proof.
  intros Hc. destruct (m_enable pb) eqn:He.
  - pose proof (consistent_enabled pb Hc He) as Hmax.
    rewrite (object_file_done s' a pb tr He Hmax).
    rewrite object_file_done; [ | exact He | exact Hmax].
    rewrite (object_file_done s (a + b) pb tr'' He Hmax).
    destruct pb as [mx dn cu pv en cl].
    cbn [set_prev_percent set_current_size set_done_size m_done_size
         m_max_size m_current_size m_prev_percent m_enable m_do_cleanup].
    unfold percent_of, hundredfold.
    cbn [m_done_size m_max_size m_current_size].
    now rewrite add_add.
  - assert (Hoff : forall (z : Z) (st : stream) (h : trace),
              object (file_done st z pb h) = pb).
    { intros z st h. unfold file_done, bind, get, when. now rewrite He. }
    now rewrite !Hoff.
Qed.

(** [done], lines 165-173: a second [done()] leaves the object as the
    first left it, whatever the streams did; what it writes is another
    matter. *)
Theorem done_twice_same_object (pb : ProgressBar.t) (tr tr' : trace) :
  consistent pb = true ->
  object (done s (object (done s' pb tr)) tr') = object (done s' pb tr).
Proof.
  intros Hc. destruct (m_enable pb) eqn:He.
  - pose proof (consistent_enabled pb Hc He) as Hmax.
    rewrite (object_done s' pb tr He Hmax).
    rewrite object_done; [ | exact He | exact Hmax].
    destruct pb; reflexivity.
  - assert (Hoff : forall (q : ProgressBar.t) (st : stream) (h : trace),
              m_enable q = false ->
              object (done st q h) = set_do_cleanup false q).
    { intros q st h Hq. unfold done, bind, get, assign, when. cbv beta iota.
      change (m_enable (set_do_cleanup false q)) with (m_enable q).
      now rewrite Hq. }
    rewrite (Hoff pb s' tr He). rewrite Hoff by exact He.
    reflexivity.
Qed.

(** [display], line 84: the percentage is stored before anything is
    written, so a render that failed is not tried again.  Once
    [update(x)] was called, and even if its insertions threw, the same
    [update(x)] evaluates the percentage, writes nothing and returns. *)
Theorem failed_render_is_not_retried (pb : ProgressBar.t) (tr tr' : trace)
    (x : Z) :
  m_enable pb = true -> 0 < m_max_size pb ->
  let first := update s' x pb tr in
  let second := update s x (object first) tr' in
  result second = Returned tt
  /\ history second = tr' ++ [division (set_current_size x pb)]
  /\ object second = object first.
Proof.
  intros He Hmax first second.
  assert (Hfirst : object first
            = set_prev_percent (percent_of (set_current_size x pb))
                (set_current_size x pb))
    by (apply object_update; assumption).
  assert (Hsecond : second
            = display s (set_current_size x (object first)) tr').
  { apply update_enabled. rewrite Hfirst. exact He. }
  destruct (display_events s (set_current_size x (object first)) tr')
    as (evs & Heq & _ & Hskip).
  { rewrite Hfirst. exact Hmax. }
  rewrite (Hskip ltac:(rewrite Hfirst; reflexivity)) in Heq.
  rewrite Hsecond, Heq, Hfirst. unfold result, history, object. cbn [fst snd].
  split; [reflexivity | ]. split; [reflexivity | ].
  destruct pb; reflexivity.
Qed.

End Composition.

Lemma file_done_adds_up_witness :
  object (file_done quiet 40
            (object (file_done quiet 30 (construct 100 true) [])) [])
  = object (file_done quiet (30 + 40) (construct 100 true) []).
Proof.
  apply (file_done_adds_up quiet quiet (construct 100 true) [] [] [] 30 40).
  reflexivity.
Defined.

Lemma done_twice_same_object_witness :
  object (done quiet (object (done broken (construct 100 true) [])) [])
  = object (done broken (construct 100 true) []).
Proof.
  apply (done_twice_same_object quiet broken (construct 100 true) [] []).
  reflexivity.
Defined.

Lemma failed_render_is_not_retried_witness :
  let first := update broken 50 (construct 100 true) [] in
  let second := update quiet 50 (object first) (history first) in
  result first = Thrown
  /\ result second = Returned tt
  /\ output (history second) = EmptyString.
Proof.
  pose proof (failed_render_is_not_retried quiet broken (construct 100 true)
                [] (history (update broken 50 (construct 100 true) [])) 50
                eq_refl eq_refl) as H.
  cbv zeta in H. destruct H as (Hr & Hh & _).
  split; [reflexivity | ]. split; [exact Hr | ].
  cbv zeta. rewrite Hh. reflexivity.
Defined.

(** ** After [done()] *)

Section AfterDone.

(** [done] and [update], lines 136-173: [done()] does not retire the
    renderer.  It leaves [done_size] at the total, so an [update(x)] after
    it computes [100 + floor (100 * x / max_size)] percent, 100 or more,
    and renders it unless it is 100 again. *)
Theorem update_after_done_counts_on (pb : ProgressBar.t) (tr : trace)
    (x : Z) :
  m_enable pb = true -> 0 < m_max_size pb -> 0 <= x ->
  100 * (m_max_size pb + x) < SizeT.modulus ->
  let finish := done quiet pb tr in
  let later := update quiet x (object finish) (history finish) in
  let p := 100 + 100 * x / m_max_size pb in
  m_enable (object finish) = true
  /\ m_prev_percent (object later) = p /\ 100 <= p
  /\ exists num,
       fill_count p = Some num
       /\ output (history later)
          = (output (history finish)
             ++ (if (p =? 100)%Z then "" else text (frame p num)))%string.
Proof.
  intros He Hmax Hx Hfit finish later p.
  assert (Hfinish : finish = done quiet pb tr) by reflexivity.
  rewrite done_quiet in Hfinish by (try assumption; lia).
  set (pb1 := set_current_size x (object finish)).
  assert (Hen1 : m_enable (object finish) = true)
    by (rewrite Hfinish; exact He).
  assert (Hlater : later = display quiet pb1 (history finish))
    by (apply update_enabled; exact Hen1).
  assert (Hmax1 : m_max_size pb1 = m_max_size pb)
    by (unfold pb1; rewrite Hfinish; reflexivity).
  assert (Hdone1 : m_done_size pb1 = m_max_size pb)
    by (unfold pb1; rewrite Hfinish; reflexivity).
  assert (Hcur1 : m_current_size pb1 = x) by reflexivity.
  assert (Hprev1 : m_prev_percent pb1 = 100)
    by (unfold pb1; rewrite Hfinish; reflexivity).
  assert (Hp1 : percent_of pb1 = p).
  { unfold percent_of.
    rewrite hundredfold_small; rewrite ?Hdone1, ?Hcur1, ?Hmax1; try lia.
    unfold p. rewrite Z.mul_add_distr_l. apply Z.div_add_l. lia. }
  assert (Hp100 : 100 <= p).
  { unfold p. assert (0 <= 100 * x / m_max_size pb) by (apply Z.div_pos; lia).
    lia. }
  destruct (display_quiet pb1 (history finish)) as (num & Hnum & _ & Heq);
    [lia | ].
  rewrite Hp1 in Hnum. rewrite Hp1, Hprev1 in Heq. rewrite Heq in Hlater.
  split; [exact Hen1 | ]. split; [rewrite Hlater; reflexivity | ].
  split; [exact Hp100 | ].
  exists num. split; [exact Hnum | ].
  rewrite Hlater. unfold history at 1. cbn [snd].
  rewrite output_app. cbn [output division]. f_equal.
  rewrite (Z.eqb_sym p 100).
  destruct (100 =? p); [reflexivity | apply output_puts].
Qed.

End AfterDone.

Lemma update_after_done_counts_on_witness :
  let finish := done quiet (construct 100 true) [] in
  let later := update quiet 50 (object finish) (history finish) in
  m_enable (object finish) = true
  /\ m_prev_percent (object later) = 100 + 100 * 50 / 100.
Proof.
  pose proof (update_after_done_counts_on (construct 100 true) [] 50) as H.
  destruct H as (Hen & Hp & _); try (vm_compute; congruence).
  split; [exact Hen | exact Hp].
Defined.

(** ** Line feeds *)

Section LineFeeds.

Lemma count_append (c : ascii) (a b : string) :
  count c (a ++ b) = (count c a + count c b)%nat.
Proof.
  induction a as [ | x a IH ]; simpl; [reflexivity | ]. rewrite IH. lia.
Qed.

Lemma count_glyphs (c g : ascii) (n : nat) :
  Ascii.eqb g c = false -> count c (glyphs g n) = O.
Proof.
  intros Hne. induction n as [ | n IH ]; simpl; [reflexivity | ].
  now rewrite Hne, IH.
Qed.

Lemma line_feeds_numeral (percent : Z) : line_feeds (numeral percent) = O.
Proof.
  assert (Hd : forall d, line_feeds (NilEmpty.string_of_uint d) = O).
  { induction d as [ | d IH | d IH | d IH | d IH | d IH | d IH | d IH
                     | d IH | d IH | d IH ];
      unfold line_feeds in *; simpl; try rewrite IH; reflexivity. }
  unfold numeral, NilZero.string_of_uint.
  destruct (N.to_uint (Z.to_N percent)) as [ | d | d | d | d | d | d | d
                                             | d | d | d ];
    try apply Hd.
  reflexivity.
Qed.

Lemma line_feeds_cells (num : Z) : line_feeds (cells num) = O.
Proof.
  unfold line_feeds, cells, fills, blanks. destruct (num <? length).
  - rewrite !count_append, !count_glyphs by reflexivity. reflexivity.
  - now rewrite count_glyphs by reflexivity.
Qed.

(** A rendered line has no line feed in it. *)
Lemma line_feeds_frame (percent num : Z) :
  0 <= num -> line_feeds (text (frame percent num)) = O.
Proof.
  intros Hnum. rewrite text_frame by exact Hnum.
  pose proof (line_feeds_cells num) as Hc.
  pose proof (line_feeds_numeral percent) as Hn.
  unfold line_feeds in *.
  change ("[" ++ ?x)%string with (String "[" x).
  cbn [count Ascii.eqb Bool.eqb line_feed_char].
  rewrite !count_append, Hc, Hn.
  unfold padding. destruct (percent <? 10); destruct (percent <? 100);
    reflexivity.
Qed.

Lemma line_feeds_output_app (tr evs : trace) :
  line_feeds (output (tr ++ evs))
  = (line_feeds (output tr) + line_feeds (output evs))%nat.
Proof. unfold line_feeds. now rewrite output_app, count_append. Qed.

(** One call on a stream that does not throw: only [done()] on an enabled
    renderer writes a line feed, and it writes one. *)
Lemma invoke_feeds (c : call) (pb : ProgressBar.t) (tr : trace) :
  consistent pb = true ->
  line_feeds (output (history (invoke quiet c pb tr)))
  = (line_feeds (output tr)
     + (if m_enable pb then match c with Done => 1 | _ => 0 end else 0))%nat.
Proof.
  intros Hc. destruct (m_enable pb) eqn:He.
  - pose proof (consistent_enabled pb Hc He) as Hmax.
    assert (Hdisplay : forall (q : ProgressBar.t) (h : trace),
              0 < m_max_size q ->
              exists evs,
                display quiet q h
                = (Returned tt, set_prev_percent (percent_of q) q, h ++ evs)
                /\ line_feeds (output evs) = O).
    { intros q h Hq.
      destruct (display_quiet q h Hq) as (num & _ & Hnn & Heq).
      eexists. split; [exact Heq | ].
      cbn [output division].
      destruct (m_prev_percent q =? percent_of q); [reflexivity | ].
      rewrite output_puts. now apply line_feeds_frame. }
    destruct c as [x | x | | ]; unfold invoke.
    + rewrite update_enabled by exact He.
      destruct (Hdisplay (set_current_size x pb) tr Hmax) as (evs & -> & Hf).
      unfold history. cbn [snd]. now rewrite line_feeds_output_app, Hf.
    + rewrite file_done_enabled by exact He.
      destruct (Hdisplay
                  (set_current_size 0
                     (set_done_size (SizeT.add (m_done_size pb) x) pb)) tr Hmax)
        as (evs & -> & Hf).
      unfold history. cbn [snd]. now rewrite line_feeds_output_app, Hf.
    + rewrite done_enabled by exact He. fold (finished pb). unfold bind.
      destruct (Hdisplay (finished pb) tr Hmax) as (evs & -> & Hf).
      unfold cerr, quiet, history. cbn [snd].
      rewrite !line_feeds_output_app, Hf.
      change (line_feeds (output [Put newline])) with 1%nat. lia.
    + rewrite remove_quiet by exact He. unfold history. cbn [snd].
      rewrite line_feeds_output_app.
      change (line_feeds (output [Put spc; Put ("         " ++ carriage_return)]))
        with O.
      lia.
  - destruct (invoke_events quiet c pb tr Hc) as (evs & _ & Hh & _ & _ & Hnil & _).
    rewrite Hh, (Hnil He), app_nil_r. lia.
Qed.

(** The caller's next call starts from where the last one left off,
    whether that one returned or threw. *)
Lemma session_cons (s : stream) (c : call) (cs : list call)
    (pb : ProgressBar.t) (tr : trace) :
  consistent pb = true ->
  session s (c :: cs) pb tr
  = session s cs (object (invoke s c pb tr)) (history (invoke s c pb tr)).
Proof.
  intros Hc. destruct (invoke_events s c pb tr Hc) as (evs & Hr & _).
  simpl session. unfold bind, try_catch_all.
  destruct (invoke s c pb tr) as [[r pb1] tr1].
  unfold result in Hr. cbn [fst] in Hr. rewrite Hr. unfold ending.
  destruct (write_failed evs); reflexivity.
Qed.

Lemma session_feeds (cs : list call) :
  forall (pb : ProgressBar.t) (tr : trace),
  consistent pb = true ->
  line_feeds (output (history (session quiet cs pb tr)))
  = (line_feeds (output tr) + (if m_enable pb then dones cs else 0))%nat.
Proof.
  induction cs as [ | c cs IH ]; intros pb tr Hc.
  - unfold history, session, ret. cbn [snd dones].
    destruct (m_enable pb); lia.
  - rewrite session_cons by exact Hc.
    destruct (invoke_events quiet c pb tr Hc)
      as (evs & _ & _ & Hmax & Hen & _).
    rewrite IH by (rewrite (consistent_kept _ _ Hmax Hen); exact Hc).
    rewrite invoke_feeds by exact Hc. rewrite Hen.
    destruct (m_enable pb); destruct c; cbn [dones]; lia.
Qed.

(** [done] and the destructor, lines 117-126 and 165-173: on a stream that
    does not throw, an enabled renderer writes, over its whole life, one
    line feed for each [done()] the caller made, or exactly one, from the
    destructor, when the caller made none; nothing else writes a line
    feed, and a renderer that is not enabled writes none. *)
Theorem one_line_feed_per_done (max_size : Z) (enable : bool)
    (cs : list call) :
  line_feeds (output (history (lifetime quiet max_size enable cs)))
  = if (0 <? max_size) && enable
    then Nat.max 1 (dones cs)
    else O.
Proof.
  rewrite lifetime_eq.
  destruct (session_state quiet max_size enable cs) as [Hc Hcl].
  destruct (session_events quiet cs (construct max_size enable) []
              (consistent_construct max_size enable))
    as (evs & _ & _ & _ & Hen & _).
  pose proof (session_feeds cs (construct max_size enable) []
                (consistent_construct max_size enable)) as Hf.
  set (live := session quiet cs (construct max_size enable) []) in *.
  change (m_enable (construct max_size enable))
    with ((0 <? max_size) && enable) in Hen, Hf.
  change (line_feeds (output [])) with O in Hf.
  assert (Hdones : has_done cs = false -> dones cs = O).
  { clear. induction cs as [ | c cs IH ]; [reflexivity | ].
    destruct c; simpl; auto. discriminate. }
  assert (Hdones' : has_done cs = true -> (1 <= dones cs)%nat).
  { clear. induction cs as [ | c cs IH ]; [discriminate | ].
    destruct c; simpl; auto. lia. }
  unfold destroy, bind, get, when. rewrite Hcl.
  destruct (has_done cs) eqn:Hd; cbn [negb].
  - unfold ret, history at 1. cbn [snd]. rewrite Hf.
    specialize (Hdones' eq_refl).
    destruct ((0 <? max_size) && enable); lia.
  - pose proof (invoke_feeds Done (object live) (history live) Hc) as Hdone.
    unfold invoke in Hdone.
    destruct (invoke_events quiet Done (object live) (history live) Hc)
      as (evs' & Hr' & _).
    unfold invoke in Hr'. unfold try_catch_all.
    destruct (done quiet (object live) (history live)) as [[r pb1] tr1].
    unfold result in Hr'. cbn [fst] in Hr'.
    assert (Hh : history (match r with
                          | Returned _ | Thrown => (Returned tt, pb1, tr1)
                          | Undefined u => (Undefined u, pb1, tr1)
                          end) = tr1) by (destruct r; reflexivity).
    rewrite Hh. unfold history at 1 in Hdone. cbn [snd] in Hdone.
    rewrite Hdone, Hf, Hen, (Hdones eq_refl).
    destruct ((0 <? max_size) && enable); lia.
Qed.

End LineFeeds.
